(** * pymlstate: batch buffer, lifecycle and persistence header of [State]

    A shallow embedding of [state.go] (package [pymlstate]).

    The Go methods mutate a [*State] in place and report failure through an
    [error] return value.  Here every method is a function from the state
    before the call to the returned value, the state after the call and the
    list of effects it performed on its collaborators (delegate calls, log
    records).  [s.rwm] serialises the methods, so one method call is one
    atomic step and the lock itself carries no data.

    Collaborators that live in other packages ([pystate.Base], the [data]
    package, the msgpack codec, the Go runtime's slice allocator) are
    interfaces of the development: type classes whose operations the model
    calls exactly where the source calls them. *)

From Stdlib Require Import ZArith List String Ascii Bool Lia.
From Stdlib Require Import Strings.Byte DecimalString.
From Stdlib Require Import Floats Uint63.
Import ListNotations.
Open Scope Z_scope.

Set Implicit Arguments.

(** ** Go values *)

(** A Go [error] value: either built on the spot ([errors.New], [fmt.Errorf])
    or a package-level error variable compared by identity ([io.EOF]). *)
Inductive error : Type :=
| ErrorString (msg : string)
| Sentinel (name : string).

Definition EOF : error := Sentinel "io.EOF".
Definition ErrUnexpectedEOF : error := Sentinel "io.ErrUnexpectedEOF".

(** The pair [(T, error)] of a Go function that returns either a value or an
    error. *)
Inductive result (A : Type) : Type :=
| Ok (a : A)
| Err (e : error).
Arguments Ok {A} a.
Arguments Err {A} e.

(** What a call does when it can also panic. *)
Inductive outcome (A : Type) : Type :=
| Returns (a : A)
| Panics (msg : string).
Arguments Returns {A} a.
Arguments Panics {A} msg.

(** A slice: its elements and the capacity of its backing array. *)
Record Slice (A : Type) : Type := mkSlice {
  elems : list A;
  cap : nat
}.
Arguments mkSlice {A} elems cap.

Definition len {A} (s : Slice A) : nat := List.length (elems s).

(** [nil] as a slice. *)
Definition nilSlice {A} : Slice A := mkSlice [] 0.

(** [s[:0]]: no elements, same backing array. *)
Definition reslice0 {A} (s : Slice A) : Slice A := mkSlice [] (cap s).

(** The allocator of the Go runtime: the capacity [append] picks when the
    backing array is full, and the largest capacity [make] grants. *)
Class GoRuntime : Type := {
  growslice : nat -> nat -> nat;
  maxSliceCap : Z
}.

Section Slices.
Context {RT : GoRuntime} {A : Type}.

(** [append(s, x)] *)
Definition append (s : Slice A) (x : A) : Slice A :=
  let n := S (len s) in
  if (n <=? cap s)%nat
  then mkSlice (elems s ++ [x]) (cap s)
  else mkSlice (elems s ++ [x]) (growslice (cap s) n).

(** [make([]A, 0, n)] with [n] only known at run time. *)
Definition make0 (n : Z) : outcome (Slice A) :=
  if (n <? 0) || (maxSliceCap <? n)
  then Panics "runtime error: makeslice: cap out of range"
  else Returns (mkSlice [] (Z.to_nat n)).
End Slices.

(** [float64(n)] for a Go [int]: the nearest binary64 value. *)
Definition float64_of_nonneg (z : Z) : float :=
  if z <? 2 ^ 63
  then PrimFloat.of_uint63 (Uint63.of_Z z)
  else (PrimFloat.of_uint63 (Uint63.of_Z (2 ^ 62)) * 2)%float.

Definition float64_of_int (z : Z) : float :=
  if z <? 0 then PrimFloat.opp (float64_of_nonneg (- z)) else float64_of_nonneg z.

(** ** Byte streams *)

(** [%v] of an unsigned integer. *)
Definition decimal (n : N) : string := NilEmpty.string_of_uint (N.to_uint n).

Definition byte_of_Z (z : Z) : byte :=
  match Byte.of_N (Z.to_N (z mod 256)) with
  | Some b => b
  | None => x00
  end.

Definition Z_of_byte (b : byte) : Z := Z.of_N (Byte.to_N b).

(** [uint32(n)] *)
Definition uint32 (n : Z) : Z := n mod 2 ^ 32.

(** [binary.LittleEndian.PutUint32] *)
Definition PutUint32 (v : Z) : list byte :=
  [ byte_of_Z v;
    byte_of_Z (Z.shiftr v 8);
    byte_of_Z (Z.shiftr v 16);
    byte_of_Z (Z.shiftr v 24) ].

(** [binary.LittleEndian.Uint32] on a 4-byte slice. *)
Definition Uint32 (bs : list byte) : Z :=
  match bs with
  | [b0; b1; b2; b3] =>
      Z.lor (Z_of_byte b0)
        (Z.lor (Z.shiftl (Z_of_byte b1) 8)
           (Z.lor (Z.shiftl (Z_of_byte b2) 16) (Z.shiftl (Z_of_byte b3) 24)))
  | _ => 0
  end.

(** An [io.Reader] is described by what its successive [Read] calls will
    deliver.  One [Chunk] is a run of bytes the reader hands out, possibly
    over several calls when the caller's buffer is smaller, together with
    the error it reports with the last of them ([None] for [nil]).  A chunk
    without bytes is a call that returns [0] and that error.  When the
    script is exhausted every call returns [0, io.EOF]. *)
Record Chunk : Type := mkChunk {
  data : list byte;
  fault : option error
}.

Definition Reader : Type := list Chunk.

(** [n, err := r.Read(buf)] with [len(buf) = size]: the bytes stored in
    [buf[:n]], [err], and the reader afterwards. *)
Definition Read (r : Reader) (size : nat) : list byte * option error * Reader :=
  match r with
  | [] => ([], Some EOF, [])
  | c :: rest =>
      if (List.length (data c) <=? size)%nat
      then (data c, fault c, rest)
      else (firstn size (data c), None,
            mkChunk (skipn size (data c)) (fault c) :: rest)
  end.

(** The loop of [io.ReadAtLeast(r, buf, min)] with [min = len(buf)], as
    [io.ReadFull] runs it: [need] bytes are still missing, [got] have arrived.
<<
    for n < min && err == nil { nn, err = r.Read(buf[n:]); n += nn }
>>
    A read that leaves part of a chunk behind has filled the buffer, so the
    loop goes on only after a chunk was used up: the recursion follows the
    script. *)
Fixpoint readLoop (r : Reader) (need : nat) (got : list byte)
  : list byte * option error * Reader :=
  match need with
  | O => (got, None, r)
  | S _ =>
      match r with
      | [] => (got, Some EOF, [])
      | c :: rest =>
          if (List.length (data c) <=? need)%nat
          then match fault c with
               | Some e => (got ++ data c, Some e, rest)
               | None => readLoop rest (need - List.length (data c)) (got ++ data c)
               end
          else (got ++ firstn need (data c), None,
                mkChunk (skipn need (data c)) (fault c) :: rest)
      end
  end.

(** [err == io.EOF] *)
Definition is_EOF (err : option error) : bool :=
  match err with
  | Some (Sentinel name) => String.eqb name "io.EOF"
  | _ => false
  end.

(** [io.ReadFull(r, buf)] with [len(buf) = size]: after the loop,
<<
    if n >= min { err = nil } else if n > 0 && err == EOF { err = ErrUnexpectedEOF }
>> *)
Definition ReadFull (r : Reader) (size : nat) : list byte * option error * Reader :=
  let '(got, err, r') := readLoop r size [] in
  if (size <=? List.length got)%nat then (got, None, r')
  else if (0 <? List.length got)%nat && is_EOF err then (got, Some ErrUnexpectedEOF, r')
  else (got, err, r').

(** [binary.Read(r, binary.LittleEndian, &v)] for [v uint8]. *)
Definition binary_Read_uint8 (r : Reader) : result byte * Reader :=
  let '(bs, err, r') := ReadFull r 1 in
  match err with
  | Some e => (Err e, r')
  | None => (Ok (hd x00 bs), r')
  end.

(** [binary.Read(r, binary.LittleEndian, &v)] for [v uint32]. *)
Definition binary_Read_uint32 (r : Reader) : result Z * Reader :=
  let '(bs, err, r') := ReadFull r 4 in
  match err with
  | Some e => (Err e, r')
  | None => (Ok (Uint32 bs), r')
  end.

(** An [io.Writer]: the bytes it has taken so far and how its next [Write]
    calls behave.  A step takes at most [accept] bytes of what it is given
    (all of them for [None]) and returns [wfault].  Without a scripted step
    a call takes everything and returns [nil]. *)
Record WStep : Type := mkWStep {
  accept : option nat;
  wfault : option error
}.

Record Writer : Type := mkWriter {
  written : list byte;
  wscript : list WStep
}.

(** [n, err := w.Write(p)] *)
Definition Writer_Write (w : Writer) (p : list byte) : nat * option error * Writer :=
  match wscript w with
  | [] => (List.length p, None, mkWriter (written w ++ p) [])
  | st :: rest =>
      let n := match accept st with
               | None => List.length p
               | Some k => Nat.min k (List.length p)
               end in
      (n, wfault st, mkWriter (written w ++ firstn n p) rest)
  end.

(** [binary.Write(w, binary.LittleEndian, v)] for [v uint32]: one [Write] of
    the four bytes, whose error is returned. *)
Definition binary_Write_uint32 (w : Writer) (v : Z) : option error * Writer :=
  let '(_, err, w') := Writer_Write w (PutUint32 v) in (err, w').

(** ** Collaborators *)

(** [MLParams]: the parameters pymlstate adds to those of pystate. *)
Record MLParams : Type := mkMLParams {
  BatchSize : Z
}.

(** Package [data]: values, maps, paths and conversions. *)
Class Data : Type := {
  data_Value : Type;
  data_Map : Type;
  (** a [data.Map] stored where a [data.Value] is expected *)
  MapValue : data_Map -> data_Value;
  (** a [data.Array] stored where a [data.Value] is expected *)
  ArrayValue : list data_Value -> data_Value;
  data_Path : Type;
  data_MustCompilePath : string -> data_Path;
  data_AsMap : data_Value -> result data_Map;
  Map_Get : data_Map -> data_Path -> result data_Value;
  data_ToFloat : data_Value -> result float
}.

(** Package [pystate]: the Python instance behind a [*pystate.Base]. *)
Class PyState {D : Data} : Type := {
  Base : Type;
  BaseParams : Type;
  NewBase : BaseParams -> data_Map -> result Base;
  Base_Terminate : Base -> option error * Base;
  CheckTermination : Base -> option error;
  Base_Call : Base -> string -> list data_Value -> result data_Value * Base;
  Base_Save : Base -> Writer -> data_Map -> option error * Base * Writer;
  Base_Load : Base -> Reader -> data_Map -> option error * Base * Reader
}.

(** Package [codec] with a [MsgpackHandle], at type [MLParams]:
    [NewEncoderBytes(&out, h).Encode(&p)] and
    [NewDecoderBytes(buf, h).Decode(&saved)] on a zero [saved]. *)
Class Msgpack : Type := {
  Encode : MLParams -> result (list byte);
  Decode : list byte -> result MLParams
}.

(** ** The state *)

Section Model.
Context {RT : GoRuntime} {D : Data} {PY : PyState} {MP : Msgpack}.

Definition lossPath : data_Path := data_MustCompilePath "loss".
Definition accPath : data_Path := data_MustCompilePath "accuracy".

(** [State] without its lock. *)
Record State : Type := mkState {
  base : Base;
  params : MLParams;
  bucket : Slice data_Value
}.

(** [core.Tuple], of which only [Data] is used. *)
Record Tuple : Type := mkTuple {
  Data_ : data_Map
}.

(** What a method does to the world outside [State]. *)
Inductive Event : Type :=
| Called (method : string) (args : list data_Value)
    (** [s.base.Call(method, args...)] *)
| ErrLogged (err : error) (bucket_size : nat) (msg : string)
    (** [ctx.ErrLog(err).WithField("bucket_size", n).Error(msg)] *)
| Debugged (loss acc : float)
    (** [ctx.Log().Debugf("loss=%.3f acc=%.3f", loss, acc)] *).

Definition with_base (s : State) (b : Base) : State :=
  mkState b (params s) (bucket s).

(** [New] *)
Definition New (baseParams : BaseParams) (mlParams : MLParams) (ps : data_Map)
  : outcome (result State) :=
  match NewBase baseParams ps with
  | Err err => Returns (Err err)
  | Ok b =>
      match make0 (BatchSize mlParams) with
      | Panics m => Panics m
      | Returns sl => Returns (Ok (mkState b mlParams sl))
      end
  end.

(** [State.Terminate] *)
Definition Terminate (s : State) : option error * State :=
  let '(err, b) := Base_Terminate (base s) in
  match err with
  | Some e => (Some e, with_base s b)
  | None => (None, mkState b (params s) nilSlice)
  end.

(** [State.fit] *)
Definition fit (s : State) (bk : list data_Value)
  : result data_Value * State * list Event :=
  let '(r, b) := Base_Call (base s) "fit" [ArrayValue bk] in
  (r, with_base s b, [Called "fit" [ArrayValue bk]]).

(** The optional logging at the end of [Write] (from [data.AsMap(m)] on):
    every early [return nil] logs nothing. *)
Definition logFitResult (p : MLParams) (m : data_Value) : list Event :=
  match data_AsMap m with
  | Err _ => []
  | Ok ret =>
      match Map_Get ret lossPath with
      | Err _ => []
      | Ok l =>
          match data_ToFloat l with
          | Err _ => []
          | Ok loss =>
              match Map_Get ret accPath with
              | Err _ => []
              | Ok a =>
                  match data_ToFloat a with
                  | Err _ => []
                  | Ok acc =>
                      [Debugged (loss / float64_of_int (BatchSize p))%float
                                (acc / float64_of_int (BatchSize p))%float]
                  end
              end
          end
      end
  end.

Definition trainingFailed : string :=
  "pymlstate's training via Write (INSERT INTO) failed".

(** [State.Write] *)
Definition Write (s : State) (t : Tuple) : option error * State * list Event :=
  match CheckTermination (base s) with
  | Some err => (Some err, s, [])
  | None =>
      let bk := append (bucket s) (MapValue (Data_ t)) in
      if Z.of_nat (len bk) <? BatchSize (params s)
      then (None, mkState (base s) (params s) bk, [])
      else
        let '(m, s1, ev) := fit (mkState (base s) (params s) bk) (elems bk) in
        let prevBucketSize := len bk in
        let s2 := mkState (base s1) (params s1) (reslice0 bk) in
        match m with
        | Err err => (Some err, s2, ev ++ [ErrLogged err prevBucketSize trainingFailed])
        | Ok v => (None, s2, ev ++ logFitResult (params s2) v)
        end
  end.

(** [State.Fit] *)
Definition Fit (s : State) (bk : list data_Value)
  : result data_Value * State * list Event :=
  fit s bk.

(** [State.FitMap] *)
Definition FitMap (s : State) (bk : list data_Map)
  : result data_Value * State * list Event :=
  let args := List.map MapValue bk in
  let '(r, b) := Base_Call (base s) "fit" [ArrayValue args] in
  (r, with_base s b, [Called "fit" [ArrayValue args]]).

(** [State.Predict] *)
Definition Predict (s : State) (dt : data_Value)
  : result data_Value * State * list Event :=
  let '(r, b) := Base_Call (base s) "predict" [dt] in
  (r, with_base s b, [Called "predict" [dt]]).

Definition pyMLStateFormatVersion : byte := x01.

(** [State.saveState] *)
Definition saveState (s : State) (w : Writer) : option error * Writer :=
  let '(_, err, w1) := Writer_Write w [pyMLStateFormatVersion] in
  match err with
  | Some e => (Some e, w1)
  | None =>
      match Encode (params s) with
      | Err e => (Some e, w1)
      | Ok out =>
          let dataSize := uint32 (Z.of_nat (List.length out)) in
          let '(err, w2) := binary_Write_uint32 w1 dataSize in
          match err with
          | Some e => (Some e, w2)
          | None =>
              let '(n, err, w3) := Writer_Write w2 out in
              match err with
              | Some e => (Some e, w3)
              | None =>
                  if (n <? List.length out)%nat
                  then (Some (ErrorString "cannot save the MLParams data"), w3)
                  else (None, w3)
              end
          end
      end
  end.

(** [State.Save] *)
Definition Save (s : State) (w : Writer) (ps : data_Map)
  : option error * State * Writer :=
  match CheckTermination (base s) with
  | Some err => (Some err, s, w)
  | None =>
      let '(err, w1) := saveState s w in
      match err with
      | Some e => (Some e, s, w1)
      | None =>
          let '(err, b, w2) := Base_Save (base s) w1 ps in
          (err, with_base s b, w2)
      end
  end.

(** [State.loadMLParamsAndDataV1] *)
Definition loadMLParamsAndDataV1 (s : State) (r : Reader) (ps : data_Map)
  : option error * State * Reader :=
  let '(ds, r1) := binary_Read_uint32 r in
  match ds with
  | Err e => (Some e, s, r1)
  | Ok dataSize =>
      if dataSize =? 0
      then (Some (ErrorString "size of MLParams must be greater than 0"), s, r1)
      else
        let '(buf, err, r2) := Read r1 (Z.to_nat dataSize) in
        match err with
        | Some e => (Some e, s, r2)
        | None =>
            if negb (Z.of_nat (List.length buf) =? dataSize)
            then (Some (ErrorString
                          "read size is different from the size of MLParams"),
                  s, r2)
            else
              match Decode buf with
              | Err e => (Some e, s, r2)
              | Ok saved =>
                  let '(err, b, r3) := Base_Load (base s) r2 ps in
                  match err with
                  | Some e => (Some e, with_base s b, r3)
                  | None => (None, mkState b saved (bucket s), r3)
                  end
              end
        end
  end.

Definition unsupportedVersion (v : byte) : error :=
  ErrorString ("unsupported format version of State container: "
               ++ decimal (Byte.to_N v)).

(** [State.Load] *)
Definition Load (s : State) (r : Reader) (ps : data_Map)
  : option error * State * Reader :=
  match CheckTermination (base s) with
  | Some err => (Some err, s, r)
  | None =>
      let '(fv, r1) := binary_Read_uint8 r in
      match fv with
      | Err e => (Some e, s, r1)
      | Ok formatVersion =>
          if Byte.eqb formatVersion x01
          then loadMLParamsAndDataV1 s r1 ps
          else (Some (unsupportedVersion formatVersion), s, r1)
      end
  end.

(** ** Runs *)

(** Successive [Write] calls: what each returned, the state at the end and
    everything that happened on the way. *)
Fixpoint WriteAll (s : State) (ts : list Tuple)
  : list (option error) * State * list Event :=
  match ts with
  | [] => ([], s, [])
  | t :: ts' =>
      let '(err, s1, ev1) := Write s t in
      let '(errs, s2, ev2) := WriteAll s1 ts' in
      (err :: errs, s2, ev1 ++ ev2)
  end.

(** The delegate calls among some events, oldest first. *)
Definition calls (ev : list Event) : list (string * list data_Value) :=
  flat_map (fun e => match e with
                     | Called m args => [(m, args)]
                     | _ => []
                     end) ev.

(** The records a run of [Write] calls was given, as the bucket stores
    them. *)
Definition records (ts : list Tuple) : list data_Value :=
  List.map (fun t => MapValue (Data_ t)) ts.

(** A call of one of the methods a client can make on a state. *)
Inductive Request : Type :=
| ReqWrite (t : Tuple)
| ReqFit (bk : list data_Value)
| ReqFitMap (bk : list data_Map)
| ReqPredict (dt : data_Value)
| ReqSave (w : Writer) (ps : data_Map)
| ReqLoad (r : Reader) (ps : data_Map).

Definition error_of {A} (r : result A) : option error :=
  match r with
  | Ok _ => None
  | Err e => Some e
  end.

(** The error a request returns and the state it leaves. *)
Definition serve (s : State) (q : Request) : option error * State :=
  match q with
  | ReqWrite t => let '(err, s', _) := Write s t in (err, s')
  | ReqFit bk => let '(r, s', _) := Fit s bk in (error_of r, s')
  | ReqFitMap bk => let '(r, s', _) := FitMap s bk in (error_of r, s')
  | ReqPredict dt => let '(r, s', _) := Predict s dt in (error_of r, s')
  | ReqSave w ps => let '(err, s', _) := Save s w ps in (err, s')
  | ReqLoad r ps => let '(err, s', _) := Load s r ps in (err, s')
  end.

Fixpoint serveAll (s : State) (qs : list Request) : list (option error) * State :=
  match qs with
  | [] => ([], s)
  | q :: qs' =>
      let '(err, s1) := serve s q in
      let '(errs, s2) := serveAll s1 qs' in
      (err :: errs, s2)
  end.

(** What [pystate.Base] promises about termination: a successful
    [Terminate] is seen by [CheckTermination], and [Call] on a terminated
    instance returns that error without running anything. *)
Class TerminationContract : Prop := {
  terminate_marks :
    forall b b', Base_Terminate b = (None, b') ->
                 exists e, CheckTermination b' = Some e;
  call_checks :
    forall b e m args, CheckTermination b = Some e ->
                       Base_Call b m args = (Err e, b)
}.

(** The five steps of a version-1 [Load] all succeed on [r]: version byte,
    length prefix, configuration block, decoding, delegate. *)
Definition loadSteps (s : State) (r : Reader) (ps : data_Map)
    (saved : MLParams) (b : Base) (rfinal : Reader) : Prop :=
  exists r1 r2 r3 n buf,
    binary_Read_uint8 r = (Ok x01, r1) /\
    binary_Read_uint32 r1 = (Ok n, r2) /\
    n <> 0 /\
    Read r2 (Z.to_nat n) = (buf, None, r3) /\
    Z.of_nat (List.length buf) = n /\
    Decode buf = Ok saved /\
    Base_Load (base s) r3 ps = (None, b, rfinal).

End Model.

(** An in-memory stream: one run of bytes, then end of file. *)
Definition bytesReader (bs : list byte) : Reader :=
  match bs with
  | [] => []
  | _ :: _ => [mkChunk bs None]
  end.

(** The bytes [saveState] puts in front of the delegate's payload for an
    encoded configuration [out]. *)
Definition header (out : list byte) : list byte :=
  pyMLStateFormatVersion
    :: PutUint32 (uint32 (Z.of_nat (List.length out))) ++ out.

(** ** Named states

    The package-level [Fit] and [Predict] find their state by name in
    [ctx.SharedStates].  The registry hands out the same [*State] at every
    lookup, so what a method did to the state is what the next lookup of
    that name finds; each state is taken to be registered under one name. *)

Section Registry.
Context {RT : GoRuntime} {D : Data} {PY : PyState} {MP : Msgpack}.

(** A [core.SharedState] as [lookupState] tells them apart: a [*State] of
    this package, or a state of some other type. *)
Inductive SharedState : Type :=
| PyMLState (s : State)
| OtherState (typeName : string).

(** [ctx.SharedStates]: what [Get] returns for each name. *)
Definition SharedStates : Type := string -> result SharedState.

(** The registry once the state under [name] has become [s]. *)
Definition mutated (reg : SharedStates) (name : string) (s : State) : SharedStates :=
  fun n => if String.eqb n name then Ok (PyMLState s) else reg n.

Definition notAState (stateName : string) : error :=
  ErrorString ("state '" ++ stateName ++ "' isn't a State").

(** [lookupState] *)
Definition lookupState (reg : SharedStates) (stateName : string) : result State :=
  match reg stateName with
  | Err err => Err err
  | Ok (PyMLState s) => Ok s
  | Ok (OtherState _) => Err (notAState stateName)
  end.

(** The package-level [Fit]. *)
Definition pymlstate_Fit (reg : SharedStates) (stateName : string)
    (bk : list data_Map) : result data_Value * SharedStates * list Event :=
  match lookupState reg stateName with
  | Err err => (Err err, reg, [])
  | Ok s =>
      let '(r, s', ev) := FitMap s bk in
      (r, mutated reg stateName s', ev)
  end.

(** The package-level [Predict]. *)
Definition pymlstate_Predict (reg : SharedStates) (stateName : string)
    (dt : data_Value) : result data_Value * SharedStates * list Event :=
  match lookupState reg stateName with
  | Err err => (Err err, reg, [])
  | Ok s =>
      let '(r, s', ev) := Predict s dt in
      (r, mutated reg stateName s', ev)
  end.

(** The delegate is live at every [Write] of a run. *)
Fixpoint liveRun (s : State) (ts : list Tuple) : Prop :=
  match ts with
  | [] => True
  | t :: ts' =>
      CheckTermination (base s) = None /\
      liveRun (snd (fst (Write s t))) ts'
  end.

(** The delegate call [fit] makes for a batch. *)
Definition fitCall (batch : list data_Value) : string * list data_Value :=
  ("fit"%string, [ArrayValue batch]).

End Registry.

(** A step of a writer that keeps the promise of [io.Writer]: it takes
    everything, or it returns an error. *)
Definition honest (st : WStep) : Prop := accept st = None \/ wfault st <> None.

(** A chunk that brings bytes and no error. *)
Definition plain (c : Chunk) : Prop := data c <> [] /\ fault c = None.

(** All the bytes a reader will deliver. *)
Definition bytesOf (r : Reader) : list byte := List.concat (List.map data r).

Definition shortRead : error :=
  ErrorString "read size is different from the size of MLParams".

Definition emptyParams : error :=
  ErrorString "size of MLParams must be greater than 0".

(** ** A concrete set of collaborators

    Small stand-ins for the other packages, on which the model runs: a
    JSON-like [data] package, a Python instance that answers every [fit]
    with a fixed value, the msgpack wire format of [MLParams], and an
    allocator that doubles. *)
Module Sample.

#[local] Set Warnings "-register-all".
Inductive value : Type :=
| VNull
| VInt (z : Z)
| VFloat (f : float)
| VString (s : string)
| VArray (l : list value)
| VMap (m : list (string * value)).

Fixpoint lookup (k : string) (m : list (string * value)) : result value :=
  match m with
  | [] => Err (ErrorString "key not found")
  | (k', v) :: m' => if String.eqb k k' then Ok v else lookup k m'
  end.

Definition sdata : Data := {|
  data_Value := value;
  data_Map := list (string * value);
  MapValue := VMap;
  ArrayValue := VArray;
  data_Path := string;
  data_MustCompilePath := fun p => p;
  data_AsMap := fun v => match v with
                         | VMap m => Ok m
                         | _ => Err (ErrorString "unsupported cast to map")
                         end;
  Map_Get := fun m p => lookup p m;
  data_ToFloat := fun v => match v with
                           | VInt z => Ok (float64_of_int z)
                           | VFloat f => Ok f
                           | _ => Err (ErrorString "unsupported cast to float")
                           end
|}.

Definition sruntime : GoRuntime := {|
  growslice := fun old needed => Nat.max (2 * old) needed;
  maxSliceCap := 2 ^ 44
|}.

Definition ErrAlreadyTerminated : error := Sentinel "pystate.ErrAlreadyTerminated".

(** The Python side: whether the instance is still there, what its [fit]
    answers, and the model bytes it saves and loads. *)
Record instance : Type := mkInstance {
  alive : bool;
  answer : result value;
  model : list byte
}.

Record construction : Type := mkConstruction {
  importable : bool;
  fit_answer : result value
}.

Definition call (b : instance) (m : string) (args : list value)
  : result value * instance :=
  if alive b
  then if String.eqb m "fit" then (answer b, b) else (Ok (hd VNull args), b)
  else (Err ErrAlreadyTerminated, b).

Definition save (b : instance) (w : Writer) : option error * instance * Writer :=
  if alive b
  then let '(_, err, w') := Writer_Write w (model b) in (err, b, w')
  else (Some ErrAlreadyTerminated, b, w).

Definition load (b : instance) (r : Reader) : option error * instance * Reader :=
  if alive b
  then let '(bs, err, r') := Read r 64 in
       if is_EOF err then (None, mkInstance true (answer b) bs, r')
       else match err with
            | Some e => (Some e, b, r')
            | None => (None, mkInstance true (answer b) bs, r')
            end
  else (Some ErrAlreadyTerminated, b, r).

Definition newBase (bp : construction) : result instance :=
  if importable bp then Ok (mkInstance true (fit_answer bp) [])
  else Err (ErrorString "cannot import the module").

Definition terminate (b : instance) : option error * instance :=
  if alive b then (None, mkInstance false (answer b) (model b))
  else (Some ErrAlreadyTerminated, b).

Definition checkTermination (b : instance) : option error :=
  if alive b then None else Some ErrAlreadyTerminated.

Definition spystate : @PyState sdata :=
  @Build_PyState sdata instance construction
    (fun bp _ => newBase bp) terminate checkTermination call
    (fun b w _ => save b w) (fun b r _ => load b r).

(** [k] bytes of [v], most significant first. *)
Definition bigEndian (k : nat) (v : Z) : list byte :=
  List.map (fun j => byte_of_Z (Z.shiftr v (8 * Z.of_nat j))) (rev (seq 0 k)).

Definition fromBigEndian (bs : list byte) : Z :=
  fold_left (fun acc b => acc * 256 + Z_of_byte b) bs 0.

Definition EncodeUint (i : Z) : list byte :=
  if i <=? 127 then [byte_of_Z i]
  else if i <=? 255 then xcc :: bigEndian 1 i
  else if i <=? 65535 then xcd :: bigEndian 2 i
  else if i <=? 4294967295 then xce :: bigEndian 4 i
  else xcf :: bigEndian 8 i.

Definition EncodeInt (i : Z) : list byte :=
  if 0 <=? i then EncodeUint i
  else if -32 <=? i then [byte_of_Z i]
  else if -128 <=? i then xd0 :: bigEndian 1 i
  else if -32768 <=? i then xd1 :: bigEndian 2 i
  else if -2147483648 <=? i then xd2 :: bigEndian 4 i
  else xd3 :: bigEndian 8 i.

Definition fieldName : string := "batch_train_size".

Definition malformed : error := ErrorString "msgpack: malformed MLParams".

(** An integer of [k] bytes after its tag; [signed] folds it around
    [2 ^ (8 k)]. *)
Definition takeInt (k : nat) (signed : bool) (bs : list byte) : result (Z * list byte) :=
  if (List.length bs <? k)%nat then Err EOF
  else
    let u := fromBigEndian (firstn k bs) in
    let half := 2 ^ (8 * Z.of_nat k - 1) in
    let v := if signed && (half <=? u) then u - 2 * half else u in
    if 2 ^ 63 <=? v then Err malformed else Ok (v, skipn k bs).

Definition DecodeInt (bs : list byte) : result (Z * list byte) :=
  match bs with
  | [] => Err EOF
  | t :: rest =>
      let n := Z_of_byte t in
      if n <=? 127 then Ok (n, rest)
      else if 224 <=? n then Ok (n - 256, rest)
      else if n =? 204 then takeInt 1 false rest
      else if n =? 205 then takeInt 2 false rest
      else if n =? 206 then takeInt 4 false rest
      else if n =? 207 then takeInt 8 false rest
      else if n =? 208 then takeInt 1 true rest
      else if n =? 209 then takeInt 2 true rest
      else if n =? 210 then takeInt 4 true rest
      else if n =? 211 then takeInt 8 true rest
      else Err malformed
  end.

(** A short string: tag [0xa0 + length], then the characters. *)
Definition DecodeKey (bs : list byte) : result (string * list byte) :=
  match bs with
  | [] => Err EOF
  | t :: rest =>
      let n := Z_of_byte t in
      if (160 <=? n) && (n <=? 191)
      then let k := Z.to_nat (n - 160) in
           if (List.length rest <? k)%nat then Err EOF
           else Ok (string_of_list_byte (firstn k rest), skipn k rest)
      else Err malformed
  end.

(** The [count] entries of a map, filling the one field [MLParams] has and
    skipping integer entries under other names. *)
Fixpoint DecodeEntries (count : nat) (bs : list byte) (acc : MLParams) : result MLParams :=
  match count with
  | O => Ok acc
  | S count' =>
      match DecodeKey bs with
      | Err e => Err e
      | Ok (k, bs1) =>
          match DecodeInt bs1 with
          | Err e => Err e
          | Ok (v, bs2) =>
              DecodeEntries count' bs2
                (if String.eqb k fieldName then mkMLParams v else acc)
          end
      end
  end.

Definition smsgpack : Msgpack := {|
  Encode := fun p =>
    Ok ([x81; xb0] ++ list_byte_of_string fieldName ++ EncodeInt (BatchSize p));
  Decode := fun bs =>
    match bs with
    | [] => Err EOF
    | t :: rest =>
        let n := Z_of_byte t in
        if (128 <=? n) && (n <=? 143)
        then DecodeEntries (Z.to_nat (n - 128)) rest (mkMLParams 0)
        else Err malformed
    end
|}.

Definition SState : Type := @State sdata spystate.
Definition STuple : Type := @Tuple sdata.

Definition good : construction :=
  mkConstruction true
    (Ok (VMap [("loss", VFloat 4); ("accuracy", VFloat 0x1.ccccccccccccdp+0)])%string).

Definition failing : construction :=
  mkConstruction true (Err (ErrorString "fit raised")).

(** A live state with an empty bucket of the given batch size. *)
Definition fresh (c : construction) (n : Z) : SState :=
  mkState (PY := spystate)
    (mkInstance true (fit_answer c) []) (mkMLParams n)
    (mkSlice [] (Z.to_nat n)).

Definition x (n : Z) : STuple := mkTuple (D := sdata) [("x"%string, VInt n)].

(** The configuration block of batch size 10. *)
Definition ten : list byte :=
  [x81; xb0] ++ list_byte_of_string fieldName ++ [x0a].

End Sample.

(** * Properties *)

Unset Implicit Arguments.

(** ** Slices *)

Section SliceFacts.
Context {RT : GoRuntime} {A : Type}.

Lemma elems_append (s : Slice A) (x : A) : elems (append s x) = elems s ++ [x].
Proof. unfold append. destruct (_ <=? _)%nat; reflexivity. Qed.

Lemma len_append (s : Slice A) (x : A) : len (append s x) = S (len s).
Proof.
  unfold len. rewrite elems_append, length_app. cbn. lia.
Qed.

Lemma elems_fold_append (xs : list A) :
  forall s : Slice A, elems (fold_left append xs s) = elems s ++ xs.
Proof.
  induction xs as [|x xs IH]; intros s; cbn.
  - now rewrite app_nil_r.
  - rewrite IH, elems_append, <- app_assoc. reflexivity.
Qed.

(** Appending within the reserved capacity never moves the backing array. *)
Lemma cap_append_within (s : Slice A) (x : A) :
  (S (len s) <= cap s)%nat -> cap (append s x) = cap s.
Proof.
  intros H. unfold append.
  destruct (Nat.leb_spec (S (len s)) (cap s)); [reflexivity | lia].
Qed.

End SliceFacts.

(** ** The write path *)

Section WriteFacts.
Context {RT : GoRuntime} {D : Data} {PY : PyState} {MP : Msgpack}.

Lemma Write_terminated (s : State) (t : Tuple) (e : error) :
  CheckTermination (base s) = Some e -> Write s t = (Some e, s, []).
Proof. intros H. unfold Write. now rewrite H. Qed.

(** The common case: the record is stored and nothing else happens. *)
Lemma Write_store (s : State) (t : Tuple) :
  CheckTermination (base s) = None ->
  Z.of_nat (S (len (bucket s))) < BatchSize (params s) ->
  Write s t =
    (None, mkState (base s) (params s) (append (bucket s) (MapValue (Data_ t))), []).
Proof.
  intros Hlive Hlt. unfold Write. rewrite Hlive, len_append.
  destruct (Z.ltb_spec (Z.of_nat (S (len (bucket s)))) (BatchSize (params s)));
    [reflexivity | lia].
Qed.

(** The batch is full: [fit] gets the whole bucket, the bucket is cut to
    length zero, and the result of [fit] decides what [Write] returns. *)
Lemma Write_flush (s : State) (t : Tuple) :
  CheckTermination (base s) = None ->
  BatchSize (params s) <= Z.of_nat (S (len (bucket s))) ->
  let bk := append (bucket s) (MapValue (Data_ t)) in
  let call := Called "fit" [ArrayValue (elems bk)] in
  Write s t =
    match Base_Call (base s) "fit" [ArrayValue (elems bk)] with
    | (Err e, b) =>
        (Some e, mkState b (params s) (reslice0 bk),
         [call; ErrLogged e (len bk) trainingFailed])
    | (Ok v, b) =>
        (None, mkState b (params s) (reslice0 bk),
         call :: logFitResult (params s) v)
    end.
Proof.
  intros Hlive Hge. cbv zeta. unfold Write, fit. rewrite Hlive, len_append.
  destruct (Z.ltb_spec (Z.of_nat (S (len (bucket s)))) (BatchSize (params s)));
    [lia |].
  cbn [base params bucket].
  destruct (Base_Call _ _ _) as [[v | e] b]; reflexivity.
Qed.

(** One [Write] keeps the configuration and leaves fewer than [BatchSize]
    records behind, whatever it returns. *)
Lemma Write_keeps_bound (s : State) (t : Tuple) err s' ev :
  Write s t = (err, s', ev) ->
  Z.of_nat (len (bucket s)) < BatchSize (params s) ->
  params s' = params s /\ Z.of_nat (len (bucket s')) < BatchSize (params s).
Proof.
  intros HW Hinv.
  destruct (CheckTermination (base s)) as [e |] eqn:Hlive.
  - rewrite (Write_terminated s t e Hlive) in HW. injection HW as <- <- <-. auto.
  - destruct (Z.lt_ge_cases (Z.of_nat (S (len (bucket s)))) (BatchSize (params s)))
      as [Hlt | Hge].
    + rewrite (Write_store s t Hlive Hlt) in HW. injection HW as <- <- <-.
      cbn [params bucket]. now rewrite len_append.
    + rewrite (Write_flush s t Hlive Hge) in HW.
      destruct (Base_Call _ _ _) as [[v | e] b];
        injection HW as <- <- <-; cbn [params bucket]; split; auto; cbn; lia.
Qed.

Lemma WriteAll_keeps_bound (ts : list Tuple) :
  forall (s : State) errs s' ev,
    WriteAll s ts = (errs, s', ev) ->
    Z.of_nat (len (bucket s)) < BatchSize (params s) ->
    params s' = params s /\ Z.of_nat (len (bucket s')) < BatchSize (params s).
Proof.
  induction ts as [|t ts IH]; intros s errs s' ev HW Hinv; cbn in HW.
  - injection HW as <- <- <-. auto.
  - destruct (Write s t) as [[e1 s1] ev1] eqn:H1.
    destruct (WriteAll s1 ts) as [[es s2] ev2] eqn:H2.
    injection HW as <- <- <-.
    destruct (Write_keeps_bound _ _ _ _ _ H1 Hinv) as [Hp Hb].
    rewrite <- Hp in Hb. destruct (IH _ _ _ _ H2 Hb) as [Hp' Hb'].
    rewrite Hp' , Hp in *. auto.
Qed.

(** A bucket that was reserved for a whole batch is never reallocated. *)
Lemma Write_keeps_capacity (s : State) (t : Tuple) err s' ev :
  Write s t = (err, s', ev) ->
  Z.of_nat (len (bucket s)) < BatchSize (params s) ->
  Z.of_nat (cap (bucket s)) = BatchSize (params s) ->
  cap (bucket s') = cap (bucket s).
Proof.
  intros HW Hinv Hcap.
  assert (Hroom : cap (append (bucket s) (MapValue (Data_ t))) = cap (bucket s))
    by (apply cap_append_within; lia).
  destruct (CheckTermination (base s)) as [e |] eqn:Hlive.
  - rewrite (Write_terminated s t e Hlive) in HW. now injection HW as <- <- <-.
  - destruct (Z.lt_ge_cases (Z.of_nat (S (len (bucket s)))) (BatchSize (params s)))
      as [Hlt | Hge].
    + rewrite (Write_store s t Hlive Hlt) in HW. now injection HW as <- <- <-.
    + rewrite (Write_flush s t Hlive Hge) in HW.
      destruct (Base_Call _ _ _) as [[v | e] b];
        injection HW as <- <- <-; exact Hroom.
Qed.

Lemma WriteAll_keeps_capacity (ts : list Tuple) :
  forall (s : State) errs s' ev,
    WriteAll s ts = (errs, s', ev) ->
    Z.of_nat (len (bucket s)) < BatchSize (params s) ->
    Z.of_nat (cap (bucket s)) = BatchSize (params s) ->
    cap (bucket s') = cap (bucket s).
Proof.
  induction ts as [|t ts IH]; intros s errs s' ev HW Hinv Hcap; cbn in HW.
  - now injection HW as <- <- <-.
  - destruct (Write s t) as [[e1 s1] ev1] eqn:H1.
    destruct (WriteAll s1 ts) as [[es s2] ev2] eqn:H2.
    injection HW as <- <- <-.
    destruct (Write_keeps_bound _ _ _ _ _ H1 Hinv) as [Hp Hb].
    pose proof (Write_keeps_capacity _ _ _ _ _ H1 Hinv Hcap) as Hc.
    rewrite <- Hc. apply (IH _ _ _ _ H2); rewrite ?Hp, ?Hc; assumption.
Qed.

Lemma WriteAll_app (ts1 ts2 : list Tuple) :
  forall s : State,
    WriteAll s (ts1 ++ ts2) =
      let '(e1, s1, ev1) := WriteAll s ts1 in
      let '(e2, s2, ev2) := WriteAll s1 ts2 in
      (e1 ++ e2, s2, ev1 ++ ev2).
Proof.
  induction ts1 as [|t ts1 IH]; intros s; cbn.
  - destruct (WriteAll s ts2) as [[e2 s2] ev2]. reflexivity.
  - destruct (Write s t) as [[e s1] ev1]. rewrite IH.
    destruct (WriteAll s1 ts1) as [[e1 s1'] ev1'].
    destruct (WriteAll s1' ts2) as [[e2 s2] ev2].
    now rewrite app_assoc.
Qed.

(** While the batch is not full, a run of writes only stores. *)
Lemma WriteAll_store (ts : list Tuple) :
  forall s : State,
    CheckTermination (base s) = None ->
    Z.of_nat (len (bucket s) + List.length ts) < BatchSize (params s) ->
    WriteAll s ts =
      (List.map (fun _ => None) ts,
       mkState (base s) (params s) (fold_left append (records ts) (bucket s)),
       []).
Proof.
  induction ts as [|t ts IH]; intros s Hlive Hlt; cbn.
  - destruct s; reflexivity.
  - cbn [List.length] in Hlt.
    rewrite Write_store by (auto; lia).
    rewrite IH; cbn [base params bucket]; auto.
    rewrite len_append. lia.
Qed.

Lemma calls_app (ev1 ev2 : list Event) : calls (ev1 ++ ev2) = calls ev1 ++ calls ev2.
Proof. unfold calls. apply flat_map_app. Qed.

Lemma calls_Called (m : string) (args : list data_Value) (ev : list Event) :
  calls (Called m args :: ev) = (m, args) :: calls ev.
Proof. reflexivity. Qed.

Lemma calls_logFitResult (p : MLParams) (v : data_Value) : calls (logFitResult p v) = [].
Proof.
  unfold logFitResult.
  repeat match goal with
         | |- context [match ?x with _ => _ end] => destruct x
         end; reflexivity.
Qed.

End WriteFacts.

Section WriteClaims.
Context {RT : GoRuntime} {D : Data} {PY : PyState}.

Lemma WriteAll_terminated (ts : list Tuple) (s : State) (e : error) :
  CheckTermination (base s) = Some e ->
  WriteAll s ts = (List.map (fun _ => Some e) ts, s, []).
Proof.
  intros H. induction ts as [|t ts IH]; cbn; [reflexivity |].
  now rewrite (Write_terminated s t e H), IH.
Qed.

Lemma New_returns_state bp ml ps (s : State) :
  New bp ml ps = Returns (Ok s) ->
  params s = ml /\ elems (bucket s) = [] /\ cap (bucket s) = Z.to_nat (BatchSize ml).
Proof.
  unfold New, make0. destruct (NewBase bp ps) as [b | e]; [| discriminate].
  destruct (_ || _); [discriminate |].
  intros H. injection H as <-. cbn. auto.
Qed.

(** C1. With batch size [N >= 1] and an empty bucket, [N] calls of [Write]
    that all return [nil] make exactly one delegate call: [fit], on the [N]
    records in the order they were written; after the last call the bucket
    has length 0. *)
Theorem Write_full_batch_fits_once (s : State) (ts : list Tuple) errs s' ev :
  elems (bucket s) = [] ->
  1 <= BatchSize (params s) ->
  Z.of_nat (List.length ts) = BatchSize (params s) ->
  WriteAll s ts = (errs, s', ev) ->
  Forall (fun err => err = None) errs ->
  calls ev = [("fit"%string, [ArrayValue (records ts)])] /\ len (bucket s') = 0%nat.
Proof.
  intros Hempty HN Hlen HW Hok.
  destruct (exists_last (l := ts)) as [ts0 [t ->]].
  { intros ->. cbn in Hlen. lia. }
  rewrite length_app in Hlen. cbn [List.length] in Hlen.
  destruct (CheckTermination (base s)) as [e |] eqn:Hlive.
  - (* a terminated state fails every call *)
    rewrite (WriteAll_terminated _ s e Hlive) in HW. injection HW as <- <- <-.
    rewrite map_app, Forall_app in Hok. destruct Hok as [_ Hok].
    inversion Hok; discriminate.
  - rewrite WriteAll_app in HW.
    assert (Hlen0 : len (bucket s) = 0%nat) by (unfold len; now rewrite Hempty).
    rewrite (WriteAll_store ts0 s Hlive) in HW by (rewrite Hlen0; lia).
    cbn [WriteAll] in HW.
    set (s1 := mkState (base s) (params s) _) in HW.
    assert (Hfull : elems (bucket s1) = records ts0).
    { subst s1. cbn [bucket]. now rewrite elems_fold_append, Hempty. }
    rewrite (Write_flush s1 t) in HW; cycle 1.
    { exact Hlive. }
    { unfold len. rewrite Hfull. unfold records. rewrite length_map.
      subst s1. cbn [params]. lia. }
    rewrite elems_append, Hfull in HW.
    replace (records ts0 ++ [MapValue (Data_ t)]) with (records (ts0 ++ [t])) in HW
      by (unfold records; now rewrite map_app).
    destruct (Base_Call _ _ _) as [[v | e] b]; injection HW as <- <- <-.
    + split; [| reflexivity].
      rewrite app_nil_r. cbn [app].
      now rewrite calls_Called, calls_logFitResult.
    + rewrite Forall_app in Hok. destruct Hok as [_ Hok].
      inversion Hok; discriminate.
Qed.

(** C2. A state made by [New] with batch size [N >= 1] has, after any run
    of [Write] calls (failed ones included), a bucket whose length is
    between 0 and [N - 1], still in the [N] slots reserved at
    construction. *)
Theorem bucket_stays_below_batch_size bp ml ps (s : State) (ts : list Tuple)
    errs s' ev :
  New bp ml ps = Returns (Ok s) ->
  1 <= BatchSize ml ->
  WriteAll s ts = (errs, s', ev) ->
  0 <= Z.of_nat (len (bucket s')) <= BatchSize ml - 1 /\
  cap (bucket s') = Z.to_nat (BatchSize ml).
Proof.
  intros HNew HN HW.
  destruct (New_returns_state _ _ _ _ HNew) as (Hp & He & Hc).
  assert (Hinv : Z.of_nat (len (bucket s)) < BatchSize (params s)).
  { unfold len. rewrite He, Hp. cbn. lia. }
  assert (Hcap : Z.of_nat (cap (bucket s)) = BatchSize (params s)).
  { rewrite Hc, Hp. lia. }
  destruct (WriteAll_keeps_bound ts s _ _ _ HW Hinv) as [_ Hb].
  rewrite (WriteAll_keeps_capacity ts s _ _ _ HW Hinv Hcap), Hc.
  rewrite Hp in Hb. split; [lia | reflexivity].
Qed.

(** C7. When the record that fills the batch is written and [fit] fails,
    [Write] returns the error of [fit], logs it with the size of the batch,
    and leaves an empty bucket on the same backing array: the records of
    the failed batch are gone. *)
Theorem Write_drops_batch_when_fit_fails (s : State) (t : Tuple) (e : error) b :
  CheckTermination (base s) = None ->
  BatchSize (params s) <= Z.of_nat (S (len (bucket s))) ->
  Base_Call (base s) "fit" [ArrayValue (elems (bucket s) ++ [MapValue (Data_ t)])]
    = (Err e, b) ->
  exists s',
    Write s t =
      (Some e, s',
       [Called "fit" [ArrayValue (elems (bucket s) ++ [MapValue (Data_ t)])];
        ErrLogged e (S (len (bucket s))) trainingFailed]) /\
    elems (bucket s') = [] /\
    cap (bucket s') = cap (append (bucket s) (MapValue (Data_ t))) /\
    params s' = params s.
Proof.
  intros Hlive Hge Hfit.
  rewrite (Write_flush s t Hlive Hge), elems_append, Hfit, len_append.
  eexists. split; [reflexivity |]. cbn. auto.
Qed.

(** C9. When the record that fills the batch is written and [fit] succeeds,
    [Write] returns [nil] whatever [fit] returned.  It logs at most one
    debug record, and when the result is a map whose [loss] and [accuracy]
    both convert to floats, that record carries [loss / float64(BatchSize)]
    and [accuracy / float64(BatchSize)]. *)
Theorem Write_succeeds_whatever_fit_returns (s : State) (t : Tuple) v b :
  CheckTermination (base s) = None ->
  BatchSize (params s) <= Z.of_nat (S (len (bucket s))) ->
  Base_Call (base s) "fit" [ArrayValue (elems (bucket s) ++ [MapValue (Data_ t)])]
    = (Ok v, b) ->
  let n := float64_of_int (BatchSize (params s)) in
  exists s' log,
    Write s t =
      (None, s',
       Called "fit" [ArrayValue (elems (bucket s) ++ [MapValue (Data_ t)])] :: log) /\
    (log = [] \/ exists loss acc, log = [Debugged (loss / n) (acc / n)]) /\
    (forall ret l a loss acc,
        data_AsMap v = Ok ret ->
        Map_Get ret lossPath = Ok l -> data_ToFloat l = Ok loss ->
        Map_Get ret accPath = Ok a -> data_ToFloat a = Ok acc ->
        log = [Debugged (loss / n) (acc / n)]).
Proof.
  intros Hlive Hge Hfit n.
  rewrite (Write_flush s t Hlive Hge), elems_append, Hfit.
  eexists. exists (logFitResult (params s) v). split; [reflexivity |]. split.
  - unfold logFitResult.
    repeat match goal with
           | |- context [match ?x with _ => _ end] => destruct x
           end; eauto.
  - intros ret l a loss acc H1 H2 H3 H4 H5. unfold logFitResult.
    now rewrite H1, H2, H3, H4, H5.
Qed.

End WriteClaims.

(** ** Bytes and streams *)

Lemma Z_of_byte_of_Z (z : Z) : Z_of_byte (byte_of_Z z) = z mod 2 ^ 8.
Proof.
  unfold Z_of_byte, byte_of_Z.
  assert (Hb : 0 <= z mod 256 < 256) by (apply Z.mod_pos_bound; lia).
  destruct (Byte.of_N (Z.to_N (z mod 256))) as [b |] eqn:E.
  - apply Byte.to_of_N in E. rewrite E, Z2N.id by lia. reflexivity.
  - apply Byte.of_N_None_iff in E. lia.
Qed.

Lemma byte_bit (z i : Z) :
  0 <= i ->
  Z.testbit (z mod 2 ^ 8) i = if i <? 8 then Z.testbit z i else false.
Proof.
  intros Hi. destruct (Z.ltb_spec i 8).
  - apply Z.mod_pow2_bits_low. lia.
  - apply Z.mod_pow2_bits_high. lia.
Qed.

(** The length prefix survives the trip through its four bytes. *)
Lemma Uint32_PutUint32 (n : Z) : 0 <= n < 2 ^ 32 -> Uint32 (PutUint32 n) = n.
Proof.
  intros Hn. unfold Uint32, PutUint32. rewrite !Z_of_byte_of_Z.
  apply Z.bits_inj'. intros i Hi.
  rewrite !Z.lor_spec, byte_bit by lia.
  destruct (Z.ltb_spec i 8).
  { rewrite !Z.shiftl_spec_low by lia. now rewrite !orb_false_r. }
  rewrite (Z.shiftl_spec _ 8), byte_bit, Z.shiftr_spec by lia.
  destruct (Z.ltb_spec (i - 8) 8).
  { rewrite !Z.shiftl_spec_low by lia. cbn. rewrite !orb_false_r. f_equal. lia. }
  rewrite (Z.shiftl_spec _ 16), byte_bit, Z.shiftr_spec by lia.
  destruct (Z.ltb_spec (i - 16) 8).
  { rewrite !Z.shiftl_spec_low by lia. cbn. rewrite !orb_false_r. f_equal. lia. }
  rewrite (Z.shiftl_spec _ 24), byte_bit, Z.shiftr_spec by lia.
  destruct (Z.ltb_spec (i - 24) 8).
  { cbn. f_equal. lia. }
  cbn. symmetry.
  rewrite <- (Z.mod_small n (2 ^ 32)) by lia.
  apply Z.mod_pow2_bits_high. lia.
Qed.

Lemma length_PutUint32 (n : Z) : List.length (PutUint32 n) = 4%nat.
Proof. reflexivity. Qed.

Lemma firstn_prefix {A} (pre rest : list A) : firstn (List.length pre) (pre ++ rest) = pre.
Proof. induction pre as [|a pre IH]; cbn; [reflexivity | now rewrite IH]. Qed.

Lemma skipn_prefix {A} (pre rest : list A) : skipn (List.length pre) (pre ++ rest) = rest.
Proof. induction pre as [|a pre IH]; cbn; auto. Qed.

(** One [Read] into a buffer of [len(pre)] bytes takes exactly [pre] from an
    in-memory stream that starts with it. *)
Lemma Read_bytes (pre rest : list byte) :
  pre <> [] ->
  Read (bytesReader (pre ++ rest)) (List.length pre) = (pre, None, bytesReader rest).
Proof.
  intros Hne. destruct pre as [|p pre]; [congruence |].
  change (bytesReader ((p :: pre) ++ rest))
    with [mkChunk ((p :: pre) ++ rest) None].
  unfold Read. cbn [data fault].
  destruct rest as [|r0 rest].
  - rewrite app_nil_r, Nat.leb_refl. reflexivity.
  - destruct (Nat.leb_spec (List.length ((p :: pre) ++ r0 :: rest))
                (List.length (p :: pre))) as [H | H].
    + rewrite length_app in H. cbn in H. lia.
    + now rewrite firstn_prefix, skipn_prefix.
Qed.

Lemma readLoop_bytes (pre rest got : list byte) :
  pre <> [] ->
  readLoop (bytesReader (pre ++ rest)) (List.length pre) got
  = (got ++ pre, None, bytesReader rest).
Proof.
  intros Hne. destruct pre as [|p pre]; [congruence |].
  change (bytesReader ((p :: pre) ++ rest))
    with [mkChunk ((p :: pre) ++ rest) None].
  change (List.length (p :: pre)) with (S (List.length pre)).
  cbn [readLoop data fault].
  destruct rest as [|r0 rest].
  - rewrite app_nil_r. change (List.length (p :: pre)) with (S (List.length pre)).
    rewrite Nat.leb_refl, Nat.sub_diag. reflexivity.
  - destruct (Nat.leb_spec (List.length ((p :: pre) ++ r0 :: rest))
                (S (List.length pre))) as [H | H].
    + rewrite length_app in H. cbn in H. lia.
    + change (S (List.length pre)) with (List.length (p :: pre)).
      now rewrite firstn_prefix, skipn_prefix.
Qed.

Lemma ReadFull_bytes (pre rest : list byte) :
  pre <> [] ->
  ReadFull (bytesReader (pre ++ rest)) (List.length pre) = (pre, None, bytesReader rest).
Proof.
  intros Hne. unfold ReadFull. rewrite readLoop_bytes by assumption.
  cbn [app]. now rewrite Nat.leb_refl.
Qed.

Lemma binary_Read_uint8_bytes (v : byte) (rest : list byte) :
  binary_Read_uint8 (bytesReader (v :: rest)) = (Ok v, bytesReader rest).
Proof.
  unfold binary_Read_uint8.
  change (v :: rest) with ([v] ++ rest).
  change 1%nat with (List.length [v]).
  rewrite ReadFull_bytes by discriminate. reflexivity.
Qed.

Lemma binary_Read_uint32_bytes (n : Z) (rest : list byte) :
  0 <= n < 2 ^ 32 ->
  binary_Read_uint32 (bytesReader (PutUint32 n ++ rest)) = (Ok n, bytesReader rest).
Proof.
  intros Hn. unfold binary_Read_uint32.
  rewrite <- (length_PutUint32 n).
  rewrite ReadFull_bytes by discriminate.
  now rewrite Uint32_PutUint32.
Qed.

(** ** Construction and termination *)

Section LifecycleClaims.
Context {RT : GoRuntime} {D : Data} {PY : PyState} {MP : Msgpack}.

(** C3, as the code has it.  [New] does not look at the batch size.  It
    returns an error exactly when [NewBase] does, and that error.  When the
    delegate is built and the batch size is between 0 and what the
    allocator grants, 0 included, it returns a state with that
    configuration and an empty bucket of that capacity.  With a negative
    batch size it returns no state. *)
Theorem New_checks_only_the_delegate bp (ml : MLParams) ps :
  (forall e, New bp ml ps = Returns (Err e) <-> NewBase bp ps = Err e) /\
  (forall b, NewBase bp ps = Ok b ->
             0 <= BatchSize ml <= maxSliceCap ->
             New bp ml ps =
               Returns (Ok (mkState b ml (mkSlice [] (Z.to_nat (BatchSize ml)))))) /\
  (BatchSize ml < 0 -> forall s, New bp ml ps <> Returns (Ok s)).
Proof.
  unfold New, make0. repeat split.
  - destruct (NewBase bp ps) as [b | e'].
    + destruct (_ || _); discriminate.
    + intros H. now injection H as ->.
  - intros ->. reflexivity.
  - intros b -> [H0 H1].
    destruct (Z.ltb_spec (BatchSize ml) 0); [lia |].
    destruct (Z.ltb_spec maxSliceCap (BatchSize ml)); [lia |].
    reflexivity.
  - intros Hneg s. destruct (NewBase bp ps) as [b | e]; [| discriminate].
    destruct (Z.ltb_spec (BatchSize ml) 0); [| lia]. discriminate.
Qed.

Lemma with_base_same (s : State) : with_base s (base s) = s.
Proof. destruct s; reflexivity. Qed.

Section Terminated.
Context {TC : TerminationContract}.

(** On a terminated state every request returns the termination error and
    leaves the state as it was. *)
Lemma serve_terminated (s : State) (e : error) (q : Request) :
  CheckTermination (base s) = Some e -> serve s q = (Some e, s).
Proof.
  intros H. destruct q; cbn [serve].
  - now rewrite (Write_terminated s t e H).
  - unfold Fit, fit. rewrite call_checks with (e := e) by exact H. rewrite with_base_same. reflexivity.
  - unfold FitMap. rewrite call_checks with (e := e) by exact H. rewrite with_base_same. reflexivity.
  - unfold Predict. rewrite call_checks with (e := e) by exact H. rewrite with_base_same. reflexivity.
  - unfold Save. now rewrite H.
  - unfold Load. now rewrite H.
Qed.

Lemma serveAll_terminated (qs : list Request) (s : State) (e : error) :
  CheckTermination (base s) = Some e ->
  serveAll s qs = (List.map (fun _ => Some e) qs, s).
Proof.
  intros H. induction qs as [|q qs IH]; cbn; [reflexivity |].
  now rewrite (serve_terminated s e q H), IH.
Qed.

(** C4. Once [Terminate] has returned [nil], every later [Write], [Fit],
    [FitMap], [Predict], [Save] and [Load] returns the termination error,
    and the state (bucket and configuration with it) stays what
    [Terminate] left. *)
Theorem requests_after_Terminate_fail (s s1 : State) (qs : list Request) :
  Terminate s = (None, s1) ->
  exists e,
    CheckTermination (base s1) = Some e /\
    serveAll s1 qs = (List.map (fun _ => Some e) qs, s1) /\
    params s1 = params s /\ bucket s1 = nilSlice.
Proof.
  unfold Terminate. destruct (Base_Terminate (base s)) as [[e |] b] eqn:HT;
    [discriminate |].
  intros H. injection H as <-.
  destruct (terminate_marks _ HT) as [e He].
  exists e. cbn [base params bucket]. repeat split; auto.
  now apply serveAll_terminated.
Qed.

End Terminated.
End LifecycleClaims.

(** ** Persistence *)

Section PersistenceClaims.
Context {RT : GoRuntime} {D : Data} {PY : PyState} {MP : Msgpack}.

(** A live state on which the five steps succeed is loaded. *)
Lemma Load_steps_succeed (s : State) r ps saved b rfinal :
  CheckTermination (base s) = None ->
  loadSteps s r ps saved b rfinal ->
  Load s r ps = (None, mkState b saved (bucket s), rfinal).
Proof.
  intros Hlive (r1 & r2 & r3 & n & buf & H1 & H2 & Hn & H3 & Hlen & Hdec & Hload).
  unfold Load. rewrite Hlive, H1. cbn [Byte.eqb].
  unfold loadMLParamsAndDataV1. rewrite H2.
  destruct (Z.eqb_spec n 0); [contradiction |].
  rewrite H3, Hlen, Z.eqb_refl. cbn [negb].
  now rewrite Hdec, Hload.
Qed.

(** C5. [Load] returns [nil] only when the version byte, the length prefix
    and the configuration block were read, the block was decoded and the
    delegate's load returned [nil]; the configuration is then the decoded
    one.  Whenever [Load] returns an error the configuration is the one
    before the call.  The bucket is never touched. *)
Theorem Load_replaces_params_only_on_success (s : State) r ps :
  match Load s r ps with
  | (Some _, s', _) => params s' = params s /\ bucket s' = bucket s
  | (None, s', r') =>
      exists saved,
        loadSteps s r ps saved (base s') r' /\
        params s' = saved /\ bucket s' = bucket s
  end.
Proof.
  unfold Load.
  destruct (CheckTermination (base s)) as [e |]; [auto |].
  destruct (binary_Read_uint8 r) as [[v | e] r1] eqn:H1; [| auto].
  destruct (Byte.eqb v x01) eqn:Hv; [| auto].
  apply Byte.byte_dec_bl in Hv. subst v.
  unfold loadMLParamsAndDataV1, loadSteps.
  destruct (binary_Read_uint32 r1) as [[n | e] r2] eqn:H2; [| auto].
  destruct (Z.eqb_spec n 0) as [| Hn]; [auto |].
  destruct (Read r2 (Z.to_nat n)) as [[buf [e |]] r3] eqn:H3; [auto |].
  destruct (Z.eqb_spec (Z.of_nat (List.length buf)) n) as [Hlen |]; cbn [negb]; [| auto].
  destruct (Decode buf) as [saved | e] eqn:Hdec; [| auto].
  destruct (Base_Load (base s) r3 ps) as [[[e |] b] r4] eqn:Hload; [cbn; auto |].
  exists saved. cbn [base params bucket]. repeat split; auto.
  exists r1, r2, r3, n, buf. auto 10.
Qed.

(** C8. On a live state, a stream whose version byte is not 1 makes [Load]
    return the error that names that byte, and [Load] gives the state back
    as it was. *)
Theorem Load_rejects_other_versions (s : State) r ps (v : byte) r1 :
  CheckTermination (base s) = None ->
  binary_Read_uint8 r = (Ok v, r1) ->
  v <> x01 ->
  Load s r ps = (Some (unsupportedVersion v), s, r1) /\
  unsupportedVersion v =
    ErrorString ("unsupported format version of State container: "
                 ++ decimal (Byte.to_N v)).
Proof.
  intros Hlive Hread Hv. split; [| reflexivity].
  unfold Load. rewrite Hlive, Hread.
  destruct (Byte.eqb v x01) eqn:E; [| reflexivity].
  apply Byte.byte_dec_bl in E. contradiction.
Qed.

(** What [saveState] writes to a writer that takes everything. *)
Lemma saveState_header (s : State) (w : Writer) (out : list byte) :
  wscript w = [] ->
  Encode (params s) = Ok out ->
  saveState s w = (None, mkWriter (written w ++ header out) []).
Proof.
  intros Hw Henc. unfold saveState, binary_Write_uint32, Writer_Write.
  rewrite Hw, Henc. cbn [wscript written].
  rewrite Nat.ltb_irrefl. unfold header.
  now rewrite <- !app_assoc.
Qed.

(** [Load] on an in-memory stream that starts with a header: the header is
    read off, the delegate gets what follows it, and its verdict decides. *)
Lemma Load_header (s : State) ps (out payload : list byte) (saved : MLParams) :
  CheckTermination (base s) = None ->
  out <> [] ->
  Z.of_nat (List.length out) < 2 ^ 32 ->
  Decode out = Ok saved ->
  Load s (bytesReader (header out ++ payload)) ps =
    match Base_Load (base s) (bytesReader payload) ps with
    | (Some e, b, r) => (Some e, with_base s b, r)
    | (None, b, r) => (None, mkState b saved (bucket s), r)
    end.
Proof.
  intros Hlive Hne Hlen Hdec.
  assert (Hsize : uint32 (Z.of_nat (List.length out)) = Z.of_nat (List.length out)).
  { unfold uint32. apply Z.mod_small. lia. }
  unfold Load, header. rewrite Hlive, Hsize.
  cbn [app]. rewrite binary_Read_uint8_bytes.
  change (Byte.eqb pyMLStateFormatVersion x01) with true. cbn iota.
  unfold loadMLParamsAndDataV1.
  rewrite <- app_assoc, binary_Read_uint32_bytes by lia.
  destruct (Z.eqb_spec (Z.of_nat (List.length out)) 0) as [H0 |].
  { destruct out; [congruence | cbn in H0; lia]. }
  rewrite Nat2Z.id, Read_bytes by assumption.
  rewrite Z.eqb_refl. cbn [negb]. rewrite Hdec.
  destruct (Base_Load (base s) (bytesReader payload) ps) as [[[e |] b] r];
    reflexivity.
Qed.

(** C6. Take a live state whose configuration the codec encodes to a
    non-empty block of fewer than [2 ^ 32] bytes that it decodes back to
    the same configuration.  On a writer that takes everything, [Save]
    writes one version byte, the four bytes of the block's length and the
    block, [5 + configLen] bytes, and hands the writer to the delegate.
    [Load] of a live state from these bytes followed by any payload hands
    the delegate the stream at the start of the payload and, when the
    delegate's load returns [nil], ends with the saved configuration. *)
Theorem Save_then_Load_restores_params (s : State) (w : Writer) ps (out : list byte) :
  CheckTermination (base s) = None ->
  wscript w = [] ->
  Encode (params s) = Ok out ->
  Decode out = Ok (params s) ->
  out <> [] ->
  Z.of_nat (List.length out) < 2 ^ 32 ->
  List.length (header out) = (5 + List.length out)%nat /\
  Save s w ps =
    (let '(err, b, w') :=
       Base_Save (base s) (mkWriter (written w ++ header out) []) ps in
     (err, with_base s b, w')) /\
  forall (s2 : State) ps2 (payload : list byte),
    CheckTermination (base s2) = None ->
    Load s2 (bytesReader (header out ++ payload)) ps2 =
      match Base_Load (base s2) (bytesReader payload) ps2 with
      | (Some e, b, r) => (Some e, with_base s2 b, r)
      | (None, b, r) => (None, mkState b (params s) (bucket s2), r)
      end.
Proof.
  intros Hlive Hw Henc Hdec Hne Hlen. split; [| split].
  - unfold header, PutUint32. cbn [List.length app]. lia.
  - unfold Save. rewrite Hlive, (saveState_header s w out Hw Henc). reflexivity.
  - intros s2 ps2 payload Hlive2. now apply Load_header.
Qed.

(** C10. [Load] takes whatever configuration the block decodes to: on a
    live state, when the block decodes to a batch size of 0 or less and the
    delegate's load returns [nil], [Load] returns [nil] and that batch size
    is the live one. *)
Theorem Load_accepts_nonpositive_batch_size (s : State) ps
    (block payload : list byte) (saved : MLParams) b r :
  CheckTermination (base s) = None ->
  block <> [] ->
  Z.of_nat (List.length block) < 2 ^ 32 ->
  Decode block = Ok saved ->
  BatchSize saved <= 0 ->
  Base_Load (base s) (bytesReader payload) ps = (None, b, r) ->
  exists s',
    Load s (bytesReader (header block ++ payload)) ps = (None, s', r) /\
    params s' = saved /\ BatchSize (params s') <= 0.
Proof.
  intros Hlive Hne Hlen Hdec Hbs Hload.
  rewrite (Load_header s ps block payload saved Hlive Hne Hlen Hdec), Hload.
  eexists. split; [reflexivity |]. cbn [params]. auto.
Qed.

End PersistenceClaims.

(** [readLoop] is the loop of [io.ReadAtLeast]: while bytes are missing and
    no error came back, call [Read] on the rest of the buffer. *)
Lemma readLoop_is_the_Read_loop (r : Reader) (need : nat) (got : list byte) :
  readLoop r need got =
    match need with
    | O => (got, None, r)
    | S _ =>
        let '(bs, err, r') := Read r need in
        match err with
        | Some e => (got ++ bs, Some e, r')
        | None => readLoop r' (need - List.length bs) (got ++ bs)
        end
    end.
Proof.
  destruct need as [|k]; [destruct r; reflexivity |].
  destruct r as [|c rest].
  - cbn. now rewrite app_nil_r.
  - cbn [readLoop Read].
    destruct (Nat.leb_spec (List.length (data c)) (S k)) as [H | H].
    + destruct (fault c); reflexivity.
    + rewrite length_firstn, Nat.min_l by lia.
      rewrite Nat.sub_diag. reflexivity.
Qed.

(** ** The sample codec

    The wire format of [Sample.smsgpack] loses nothing of a Go [int]. *)

Section SampleCodec.
Import Sample.

Lemma bigEndian_S (k : nat) (v : Z) :
  bigEndian (S k) v = byte_of_Z (Z.shiftr v (8 * Z.of_nat k)) :: bigEndian k v.
Proof.
  unfold bigEndian. rewrite seq_S, rev_app_distr. reflexivity.
Qed.

Lemma fold_bigEndian (k : nat) (v : Z) :
  forall acc,
    fold_left (fun a b => a * 256 + Z_of_byte b) (bigEndian k v) acc
    = acc * 2 ^ (8 * Z.of_nat k) + v mod 2 ^ (8 * Z.of_nat k).
Proof.
  induction k as [|k IH]; intros acc.
  - cbn. rewrite Z.mod_1_r. lia.
  - rewrite bigEndian_S. cbn [fold_left]. rewrite IH, Z_of_byte_of_Z.
    rewrite Z.shiftr_div_pow2 by lia.
    replace (8 * Z.of_nat (S k)) with (8 * Z.of_nat k + 8) by lia.
    rewrite Z.pow_add_r by lia.
    rewrite (Z.rem_mul_r v (2 ^ (8 * Z.of_nat k)) (2 ^ 8)) by lia.
    ring.
Qed.

Lemma fromBigEndian_bigEndian (k : nat) (v : Z) :
  fromBigEndian (bigEndian k v) = v mod 2 ^ (8 * Z.of_nat k).
Proof. unfold fromBigEndian. rewrite fold_bigEndian. lia. Qed.

Lemma length_bigEndian (k : nat) (v : Z) : List.length (bigEndian k v) = k.
Proof. unfold bigEndian. now rewrite length_map, length_rev, length_seq. Qed.

Lemma takeInt_exact (signed : bool) (bs : list byte) :
  takeInt (List.length bs) signed bs =
    let u := fromBigEndian bs in
    let half := 2 ^ (8 * Z.of_nat (List.length bs) - 1) in
    let v := if signed && (half <=? u) then u - 2 * half else u in
    if 2 ^ 63 <=? v then Err malformed else Ok (v, []).
Proof.
  unfold takeInt. now rewrite Nat.ltb_irrefl, firstn_all, skipn_all.
Qed.

Lemma takeInt_unsigned (k : nat) (v : Z) :
  0 <= v < 2 ^ (8 * Z.of_nat k) -> v < 2 ^ 63 ->
  takeInt k false (bigEndian k v) = Ok (v, []).
Proof.
  intros Hv H63.
  rewrite <- (length_bigEndian k v) at 1. rewrite takeInt_exact. cbv zeta.
  rewrite fromBigEndian_bigEndian, Z.mod_small by lia.
  cbn [andb]. destruct (Z.leb_spec (2 ^ 63) v); [lia | reflexivity].
Qed.

Lemma takeInt_signed (k : nat) (v : Z) :
  (0 < k <= 8)%nat ->
  - 2 ^ (8 * Z.of_nat k - 1) <= v < 0 ->
  takeInt k true (bigEndian k v) = Ok (v, []).
Proof.
  intros Hk Hv.
  rewrite <- (length_bigEndian k v) at 1. rewrite takeInt_exact. cbv zeta.
  rewrite fromBigEndian_bigEndian, length_bigEndian.
  assert (Hp : 2 ^ (8 * Z.of_nat k) = 2 * 2 ^ (8 * Z.of_nat k - 1)).
  { rewrite <- Z.pow_succ_r by lia. f_equal. lia. }
  assert (Hpos : 0 < 2 ^ (8 * Z.of_nat k - 1)) by (apply Z.pow_pos_nonneg; lia).
  assert (Hm : v mod 2 ^ (8 * Z.of_nat k) = v + 2 ^ (8 * Z.of_nat k)).
  { symmetry. apply Z.mod_unique with (q := -1); lia. }
  rewrite Hm. cbn [andb].
  destruct (Z.leb_spec (2 ^ (8 * Z.of_nat k - 1)) (v + 2 ^ (8 * Z.of_nat k))); [| lia].
  assert (H63 : 2 ^ (8 * Z.of_nat k - 1) <= 2 ^ 63) by (apply Z.pow_le_mono_r; lia).
  destruct (Z.leb_spec (2 ^ 63) (v + 2 ^ (8 * Z.of_nat k) - 2 * 2 ^ (8 * Z.of_nat k - 1)));
    [lia |].
  do 2 f_equal. lia.
Qed.

Lemma DecodeInt_EncodeInt (i : Z) :
  - 2 ^ 63 <= i < 2 ^ 63 -> DecodeInt (EncodeInt i) = Ok (i, []).
Proof.
  intros Hi. unfold EncodeInt, EncodeUint.
  repeat match goal with
         | |- context [if ?a <=? ?b then _ else _] => destruct (Z.leb_spec a b)
         end;
    cbn [DecodeInt]; rewrite ?Z_of_byte_of_Z.
  - rewrite Z.mod_small by lia.
    destruct (Z.leb_spec i 127); [reflexivity | lia].
  - change (Z_of_byte xcc) with 204. cbn -[takeInt bigEndian].
    apply takeInt_unsigned; cbn; lia.
  - change (Z_of_byte xcd) with 205. cbn -[takeInt bigEndian].
    apply takeInt_unsigned; cbn; lia.
  - change (Z_of_byte xce) with 206. cbn -[takeInt bigEndian].
    apply takeInt_unsigned; cbn; lia.
  - change (Z_of_byte xcf) with 207. cbn -[takeInt bigEndian].
    apply takeInt_unsigned; cbn; lia.
  - assert (Hm : i mod 2 ^ 8 = i + 256).
    { symmetry. apply Z.mod_unique with (q := -1); lia. }
    rewrite Hm.
    destruct (Z.leb_spec (i + 256) 127); [lia |].
    destruct (Z.leb_spec 224 (i + 256)); [| lia].
    do 2 f_equal. lia.
  - change (Z_of_byte xd0) with 208. cbn -[takeInt bigEndian].
    apply takeInt_signed; cbn; lia.
  - change (Z_of_byte xd1) with 209. cbn -[takeInt bigEndian].
    apply takeInt_signed; cbn; lia.
  - change (Z_of_byte xd2) with 210. cbn -[takeInt bigEndian].
    apply takeInt_signed; cbn; lia.
  - change (Z_of_byte xd3) with 211. cbn -[takeInt bigEndian].
    apply takeInt_signed; cbn; lia.
Qed.

#[local] Existing Instances sdata sruntime spystate smsgpack.

Lemma length_EncodeInt (i : Z) : (1 <= List.length (EncodeInt i) <= 9)%nat.
Proof.
  unfold EncodeInt, EncodeUint.
  repeat match goal with
         | |- context [if ?c then _ else _] => destruct c
         end; cbn [List.length]; rewrite ?length_bigEndian; lia.
Qed.

Lemma DecodeKey_fieldName (rest : list byte) :
  DecodeKey (xb0 :: list_byte_of_string fieldName ++ rest) = Ok (fieldName, rest).
Proof. reflexivity. Qed.

Lemma Decode_Encode (p : MLParams) :
  - 2 ^ 63 <= BatchSize p < 2 ^ 63 ->
  exists out,
    Encode p = Ok out /\ Decode out = Ok p /\
    out <> [] /\ Z.of_nat (List.length out) < 2 ^ 32.
Proof.
  intros Hp. eexists. split; [reflexivity |]. split; [| split].
  - destruct p as [n]. cbn [BatchSize] in *.
    change (Decode ([x81; xb0] ++ list_byte_of_string fieldName ++ EncodeInt n))
      with (DecodeEntries 1 (xb0 :: list_byte_of_string fieldName ++ EncodeInt n)
              (mkMLParams 0)).
    cbn [DecodeEntries].
    rewrite DecodeKey_fieldName, (DecodeInt_EncodeInt n Hp). reflexivity.
  - discriminate.
  - cbn [app List.length]. rewrite length_app.
    pose proof (length_EncodeInt (BatchSize p)). cbn [List.length fieldName list_byte_of_string]. 
    cbn -[EncodeInt]. lia.
Qed.
(** With the sample collaborators, what [Save] wrote for any batch size
    that fits a Go [int] is loaded back by any live state. *)
Lemma sample_round_trip (n : Z) (s2 : SState) :
  - 2 ^ 63 <= n < 2 ^ 63 ->
  CheckTermination (base s2) = None ->
  exists w s2' r,
    Save (fresh good n) (mkWriter [] []) [] = (None, fresh good n, w) /\
    Load s2 (bytesReader (written w)) [] = (None, s2', r) /\
    params s2' = mkMLParams n.
Proof.
  intros Hn Hlive.
  destruct (Decode_Encode (mkMLParams n) Hn) as (out & Henc & Hdec & Hne & Hlen).
  unfold Save. change (CheckTermination (base (fresh good n))) with (@None error).
  rewrite (saveState_header (fresh good n) (mkWriter [] []) out eq_refl Henc).
  cbn [written app]. do 3 eexists. split; [reflexivity |].
  cbn [written]. rewrite app_nil_r.
  rewrite <- (app_nil_r (header out)).
  rewrite (Load_header s2 [] out [] (mkMLParams n) Hlive Hne Hlen Hdec).
  change (CheckTermination (base s2)) with (checkTermination (base s2)) in Hlive.
  unfold checkTermination in Hlive.
  change (Base_Load (base s2) (bytesReader []) []) with (load (base s2) []).
  unfold load. destruct (alive (base s2)); [| discriminate].
  cbn. split; reflexivity.
Qed.

End SampleCodec.

(** ** The model at work *)

Section SampleRuns.
Import Sample.
#[local] Existing Instances sdata sruntime spystate smsgpack.

Lemma sample_contract : @TerminationContract sdata spystate.
Proof.
  split.
  - intros b b' H. cbn in H. unfold terminate in H.
    destruct (alive b); [| discriminate].
    injection H as <-. exists ErrAlreadyTerminated. reflexivity.
  - intros b e m args H. cbn in *. unfold checkTermination in H. unfold call.
    destruct (alive b); [discriminate |].
    injection H as <-. reflexivity.
Qed.

(** batchSize=2; Write x=1; Write x=2: one [fit] with both records, and the
    normalised loss 4.0 / 2 and accuracy 1.8 / 2 in the debug log. *)
Example two_writes_one_fit :
  WriteAll (fresh good 2) [x 1; x 2] =
    ([None; None], fresh good 2,
     [Called "fit" [VArray [VMap [("x", VInt 1)]; VMap [("x", VInt 2)]]%string];
      Debugged 2 0x1.ccccccccccccdp-1]).
Proof. reflexivity. Qed.

Example unsupportedVersion_names_the_byte :
  unsupportedVersion xff
  = ErrorString "unsupported format version of State container: 255".
Proof. reflexivity. Qed.

(** A stream that hands the configuration block over in two pieces: the
    single [Read] of [loadMLParamsAndDataV1] gets the first piece only. *)
Example Load_short_read :
  Load (fresh good 3)
       [mkChunk (x01 :: PutUint32 2) None; mkChunk [x81] None; mkChunk [x80] None] []
  = (Some (ErrorString "read size is different from the size of MLParams"),
     fresh good 3, [mkChunk [x80] None]).
Proof. reflexivity. Qed.

Lemma Write_full_batch_fits_once_sample :
  let run := WriteAll (fresh good 2) [x 1; x 2] in
  calls (snd run) = [("fit"%string, [ArrayValue (records [x 1; x 2])])] /\
  len (bucket (snd (fst run))) = 0%nat.
Proof.
  apply (Write_full_batch_fits_once (fresh good 2) [x 1; x 2] [None; None]).
  - reflexivity.
  - cbn. lia.
  - reflexivity.
  - reflexivity.
  - repeat constructor.
Defined.

Lemma bucket_stays_below_batch_size_sample :
  let run := WriteAll (fresh good 2) [x 1; x 2; x 3] in
  0 <= Z.of_nat (len (bucket (snd (fst run)))) <= BatchSize (mkMLParams 2) - 1 /\
  cap (bucket (snd (fst run))) = Z.to_nat (BatchSize (mkMLParams 2)).
Proof.
  apply (bucket_stays_below_batch_size (RT := sruntime) (PY := spystate) good (mkMLParams 2) [] (fresh good 2)
           [x 1; x 2; x 3] [None; None; None]
           _ (snd (WriteAll (fresh good 2) [x 1; x 2; x 3]))).
  - reflexivity.
  - cbn. lia.
  - reflexivity.
Defined.

(** C3, at a batch size of 0: the state is made. *)
Lemma New_accepts_batch_size_zero :
  BatchSize (mkMLParams 0) <= 0 /\
  New (RT := sruntime) (PY := spystate) good (mkMLParams 0) []
  = Returns (Ok (fresh good 0)).
Proof. split; [cbn; lia | reflexivity]. Qed.

Lemma requests_after_Terminate_fail_sample :
  exists e,
    CheckTermination (base (snd (Terminate (fresh good 2)))) = Some e /\
    serveAll (snd (Terminate (fresh good 2)))
      [ReqWrite (x 1); ReqFit [VInt 1]; ReqFitMap [[]]; ReqPredict VNull;
       ReqSave (mkWriter [] []) []; ReqLoad (bytesReader [x01]) []]
    = (List.map (fun _ => Some e)
         [ReqWrite (x 1); ReqFit [VInt 1]; ReqFitMap [[]]; ReqPredict VNull;
          ReqSave (mkWriter [] []) []; ReqLoad (bytesReader [x01]) []],
       snd (Terminate (fresh good 2))) /\
    params (snd (Terminate (fresh good 2))) = params (fresh good 2) /\
    bucket (snd (Terminate (fresh good 2))) = nilSlice.
Proof.
  apply (requests_after_Terminate_fail (TC := sample_contract) (fresh good 2)).
  reflexivity.
Defined.

Lemma Write_drops_batch_when_fit_fails_sample :
  exists s',
    Write (fresh failing 1) (x 1) =
      (Some (ErrorString "fit raised"), s',
       [Called "fit" [ArrayValue (elems (bucket (fresh failing 1))
                                    ++ [MapValue (Data_ (x 1))])];
        ErrLogged (ErrorString "fit raised")
          (S (len (bucket (fresh failing 1)))) trainingFailed]) /\
    elems (bucket s') = [] /\
    cap (bucket s') = cap (append (bucket (fresh failing 1)) (MapValue (Data_ (x 1)))) /\
    params s' = params (fresh failing 1).
Proof.
  apply (Write_drops_batch_when_fit_fails (fresh failing 1) (x 1)
           (ErrorString "fit raised") (base (fresh failing 1))).
  - reflexivity.
  - cbn. lia.
  - reflexivity.
Defined.

Lemma Write_succeeds_whatever_fit_returns_sample :
  let s := fresh (mkConstruction true (Ok (VString "done"))) 1 in
  let n := float64_of_int (BatchSize (params s)) in
  exists s' log,
    Write s (x 1) =
      (None, s',
       Called "fit" [ArrayValue (elems (bucket s) ++ [MapValue (Data_ (x 1))])] :: log) /\
    (log = [] \/ exists loss acc, log = [Debugged (loss / n) (acc / n)]) /\
    (forall ret l a loss acc,
        data_AsMap (VString "done") = Ok ret ->
        Map_Get ret lossPath = Ok l -> data_ToFloat l = Ok loss ->
        Map_Get ret accPath = Ok a -> data_ToFloat a = Ok acc ->
        log = [Debugged (loss / n) (acc / n)]).
Proof.
  apply (Write_succeeds_whatever_fit_returns
           (fresh (mkConstruction true (Ok (VString "done"))) 1) (x 1)
           (VString "done")
           (base (fresh (mkConstruction true (Ok (VString "done"))) 1))).
  - reflexivity.
  - cbn. lia.
  - reflexivity.
Defined.

Lemma Load_rejects_other_versions_sample :
  Load (fresh good 3) (bytesReader [x02; x08]) []
  = (Some (unsupportedVersion x02), fresh good 3, bytesReader [x08]) /\
  unsupportedVersion x02 =
    ErrorString ("unsupported format version of State container: "
                 ++ decimal (Byte.to_N x02)).
Proof.
  apply (Load_rejects_other_versions (fresh good 3) (bytesReader [x02; x08]) []
           x02 (bytesReader [x08])).
  - reflexivity.
  - reflexivity.
  - discriminate.
Defined.

Lemma Save_then_Load_restores_params_sample :
  List.length (header ten) = (5 + List.length ten)%nat /\
  Save (fresh good 10) (mkWriter [] []) [] =
    (let '(err, b, w') :=
       Base_Save (base (fresh good 10)) (mkWriter ([] ++ header ten) []) [] in
     (err, with_base (fresh good 10) b, w')) /\
  forall (s2 : SState) ps2 (payload : list byte),
    CheckTermination (base s2) = None ->
    Load s2 (bytesReader (header ten ++ payload)) ps2 =
      match Base_Load (base s2) (bytesReader payload) ps2 with
      | (Some e, b, r) => (Some e, with_base s2 b, r)
      | (None, b, r) => (None, mkState b (params (fresh good 10)) (bucket s2), r)
      end.
Proof.
  apply (Save_then_Load_restores_params (fresh good 10) (mkWriter [] []) [] ten).
  - reflexivity.
  - reflexivity.
  - reflexivity.
  - reflexivity.
  - discriminate.
  - cbn. lia.
Defined.

(** The empty msgpack map is a configuration block of batch size 0. *)
Lemma Load_accepts_nonpositive_batch_size_sample :
  exists s',
    Load (fresh good 3) (bytesReader (header [x80] ++ [x09])) [] =
      (None, s', []) /\
    params s' = mkMLParams 0 /\ BatchSize (params s') <= 0.
Proof.
  apply (Load_accepts_nonpositive_batch_size (fresh good 3) [] [x80] [x09]
           (mkMLParams 0) (mkInstance true (fit_answer good) [x09]) []).
  - reflexivity.
  - discriminate.
  - cbn. lia.
  - reflexivity.
  - cbn. lia.
  - reflexivity.
Defined.

End SampleRuns.

(** * More of the write path *)

Section WriteRuns.
Context {RT : GoRuntime} {D : Data} {PY : PyState}.

Lemma calls_fit_failed (bk : list data_Value) (e : error) (n : nat) :
  calls [Called "fit" [ArrayValue bk]; ErrLogged e n trainingFailed] = [fitCall bk].
Proof. reflexivity. Qed.

Lemma calls_fit_done (bk : list data_Value) (p : MLParams) (v : data_Value) :
  calls (Called "fit" [ArrayValue bk] :: logFitResult p v) = [fitCall bk].
Proof. now rewrite calls_Called, calls_logFitResult. Qed.

(** [Write] never changes the configuration. *)
Lemma Write_keeps_params (s : State) (t : Tuple) err s' ev :
  Write s t = (err, s', ev) -> params s' = params s.
Proof.
  intros HW.
  destruct (CheckTermination (base s)) as [e |] eqn:Hlive.
  - rewrite (Write_terminated s t e Hlive) in HW. now injection HW as <- <- <-.
  - destruct (Z.lt_ge_cases (Z.of_nat (S (len (bucket s)))) (BatchSize (params s)))
      as [Hlt | Hge].
    + rewrite (Write_store s t Hlive Hlt) in HW. now injection HW as <- <- <-.
    + rewrite (Write_flush s t Hlive Hge) in HW.
      destruct (Base_Call _ _ _) as [[v | e] b]; now injection HW as <- <- <-.
Qed.

(** X1. [Write] has two ways to fail.  On a terminated state it returns the
    termination error and does nothing.  Otherwise it fails only when the
    record filled the batch and [fit] failed on it: the error is the one
    [fit] returned, the bucket is empty afterwards, and the error log
    carries the number of records that were handed to [fit]. *)
Theorem Write_fails_two_ways (s : State) (t : Tuple) (e : error) s' ev :
  Write s t = (Some e, s', ev) ->
  (CheckTermination (base s) = Some e /\ s' = s /\ ev = []) \/
  (CheckTermination (base s) = None /\
   BatchSize (params s) <= Z.of_nat (S (len (bucket s))) /\
   let batch := elems (bucket s) ++ [MapValue (Data_ t)] in
   fst (Base_Call (base s) "fit" [ArrayValue batch]) = Err e /\
   elems (bucket s') = [] /\
   ev = [Called "fit" [ArrayValue batch];
         ErrLogged e (List.length batch) trainingFailed]).
Proof.
  intros HW.
  destruct (CheckTermination (base s)) as [e0 |] eqn:Hlive.
  - rewrite (Write_terminated s t e0 Hlive) in HW. injection HW as <- <- <-. auto.
  - right. split; [reflexivity |].
    destruct (Z.lt_ge_cases (Z.of_nat (S (len (bucket s)))) (BatchSize (params s)))
      as [Hlt | Hge].
    + rewrite (Write_store s t Hlive Hlt) in HW. discriminate.
    + split; [exact Hge |]. cbv zeta.
      rewrite (Write_flush s t Hlive Hge), elems_append in HW.
      unfold len in HW. rewrite elems_append in HW.
      destruct (Base_Call _ _ _) as [[v | e1] b]; [discriminate |].
      injection HW as <- <- <-. cbn. auto.
Qed.

(** Where the records of a run go: each [fit] of the run gets one batch,
    the batches in order followed by what is left in the bucket are the
    records that were in the bucket followed by the records written; and a
    bucket that started below the batch size only ever gives full
    batches. *)
Lemma WriteAll_batches (ts : list Tuple) :
  forall (s : State) errs s' ev,
    liveRun s ts ->
    WriteAll s ts = (errs, s', ev) ->
    exists batches : list (list data_Value),
      calls ev = List.map fitCall batches /\
      List.concat batches ++ elems (bucket s') = elems (bucket s) ++ records ts /\
      (Z.of_nat (len (bucket s)) < BatchSize (params s) ->
       Forall (fun b => Z.of_nat (List.length b) = BatchSize (params s)) batches).
Proof.
  induction ts as [|t ts IH]; intros s errs s' ev Hlive HW.
  - cbn in HW. injection HW as <- <- <-. exists []. cbn.
    rewrite app_nil_r. auto.
  - destruct Hlive as [Hlive Hrest]. cbn [WriteAll] in HW.
    destruct (Write s t) as [[e1 s1] ev1] eqn:H1. cbn [fst snd] in Hrest.
    destruct (WriteAll s1 ts) as [[es s2] ev2] eqn:H2.
    injection HW as <- <- <-.
    destruct (IH s1 es s2 ev2 Hrest H2) as (bs & Hcalls & Hcat & Hfull).
    pose proof (Write_keeps_params s t e1 s1 ev1 H1) as Hp.
    rewrite calls_app, Hcalls.
    change (records (t :: ts)) with (MapValue (Data_ t) :: records ts).
    destruct (Z.lt_ge_cases (Z.of_nat (S (len (bucket s)))) (BatchSize (params s)))
      as [Hlt | Hge].
    + rewrite (Write_store s t Hlive Hlt) in H1. injection H1 as <- <- <-.
      cbn [bucket params] in *. rewrite elems_append in Hcat.
      exists bs. cbn [calls flat_map app]. split; [reflexivity |]. split.
      * rewrite Hcat, <- app_assoc. reflexivity.
      * intros _. apply Hfull. rewrite len_append. exact Hlt.
    + rewrite (Write_flush s t Hlive Hge), elems_append in H1.
      set (batch := elems (bucket s) ++ [MapValue (Data_ t)]) in *.
      assert (Hev : calls ev1 = [fitCall batch] /\ elems (bucket s1) = [] /\
                    params s1 = params s).
      { destruct (Base_Call _ _ _) as [[v | e] b]; injection H1 as <- <- <-;
          cbn [bucket params reslice0 elems];
          rewrite ?calls_fit_failed, ?calls_fit_done; auto. }
      destruct Hev as (Hev & Hempty & _).
      exists (batch :: bs). rewrite Hev. split; [reflexivity |]. split.
      * cbn [List.concat]. rewrite <- app_assoc, Hcat, Hempty.
        subst batch. rewrite <- app_assoc. reflexivity.
      * intros Hinv. constructor.
        -- subst batch. rewrite length_app. cbn [List.length].
           unfold len in *. lia.
        -- rewrite <- Hp. apply Hfull. unfold len. rewrite Hempty, Hp.
           unfold len in Hinv. cbn. lia.
Qed.

(** X2. Over any run of [Write] calls on a live delegate, whatever the
    batch size and whether or not [fit] fails, the delegate is called only
    for [fit], once per batch, and no record is lost, repeated or
    reordered: the batches one after the other, then the bucket at the end,
    are the bucket at the start followed by the records written. *)
Theorem WriteAll_conserves_records (s : State) (ts : list Tuple) errs s' ev :
  liveRun s ts ->
  WriteAll s ts = (errs, s', ev) ->
  exists batches : list (list data_Value),
    calls ev = List.map fitCall batches /\
    List.concat batches ++ elems (bucket s') = elems (bucket s) ++ records ts.
Proof.
  intros Hlive HW.
  destruct (WriteAll_batches ts s errs s' ev Hlive HW) as (bs & H1 & H2 & _).
  exists bs. auto.
Qed.

Lemma length_concat_full {A} (n : Z) (bs : list (list A)) :
  Forall (fun b => Z.of_nat (List.length b) = n) bs ->
  Z.of_nat (List.length (List.concat bs)) = n * Z.of_nat (List.length bs).
Proof.
  induction 1 as [|b bs Hb _ IH]; cbn [List.concat List.length]; [lia |].
  rewrite length_app. lia.
Qed.

(** X3. With batch size [N >= 1] and a bucket that starts with fewer than
    [N] records, a run of [k] writes on a live delegate calls [fit] exactly
    [(len + k) / N] times, every time with exactly [N] records, and leaves
    [(len + k) mod N] records in the bucket. *)
Theorem WriteAll_fits_every_N (s : State) (ts : list Tuple) errs s' ev :
  liveRun s ts ->
  Z.of_nat (len (bucket s)) < BatchSize (params s) ->
  WriteAll s ts = (errs, s', ev) ->
  let N := BatchSize (params s) in
  let total := Z.of_nat (len (bucket s) + List.length ts) in
  exists batches : list (list data_Value),
    calls ev = List.map fitCall batches /\
    Forall (fun b => Z.of_nat (List.length b) = N) batches /\
    Z.of_nat (List.length batches) = total / N /\
    Z.of_nat (len (bucket s')) = total mod N.
Proof.
  intros Hlive Hinv HW N total.
  destruct (WriteAll_batches ts s errs s' ev Hlive HW) as (bs & H1 & H2 & H3).
  specialize (H3 Hinv). fold N in H3.
  destruct (WriteAll_keeps_bound ts s errs s' ev HW Hinv) as [_ Hb]. fold N in Hb.
  exists bs. split; [exact H1 |]. split; [exact H3 |].
  assert (Hlen : total = N * Z.of_nat (List.length bs) + Z.of_nat (len (bucket s'))).
  { subst total. unfold len.
    rewrite Nat2Z.inj_add, <- (length_map (fun t => MapValue (Data_ t)) ts).
    fold (records ts). rewrite <- Nat2Z.inj_add, <- length_app, <- H2, length_app.
    rewrite Nat2Z.inj_add, (length_concat_full N bs H3). reflexivity. }
  assert (0 <= Z.of_nat (len (bucket s')) < N) by lia.
  split.
  - apply Z.div_unique with (r := Z.of_nat (len (bucket s'))); [lia | exact Hlen].
  - apply Z.mod_unique with (q := Z.of_nat (List.length bs)); [lia | exact Hlen].
Qed.

(** X4. A batch size of 1, 0 or less buffers nothing: from an empty bucket,
    every [Write] of a run on a live delegate calls [fit] with that one
    record, and the bucket is empty again after each. *)
Theorem WriteAll_unit_batches (ts : list Tuple) :
  forall (s : State) errs s' ev,
    liveRun s ts ->
    BatchSize (params s) <= 1 ->
    elems (bucket s) = [] ->
    WriteAll s ts = (errs, s', ev) ->
    calls ev = List.map (fun r => fitCall [r]) (records ts) /\
    elems (bucket s') = [].
Proof.
  induction ts as [|t ts IH]; intros s errs s' ev Hlive HN Hempty HW.
  - cbn in HW. injection HW as <- <- <-. auto.
  - destruct Hlive as [Hlive Hrest]. cbn [WriteAll] in HW.
    destruct (Write s t) as [[e1 s1] ev1] eqn:H1. cbn [fst snd] in Hrest.
    destruct (WriteAll s1 ts) as [[es s2] ev2] eqn:H2.
    injection HW as <- <- <-.
    assert (Hge : BatchSize (params s) <= Z.of_nat (S (len (bucket s)))) by lia.
    rewrite (Write_flush s t Hlive Hge), elems_append, Hempty in H1.
    cbn [app] in H1.
    assert (Hev : calls ev1 = [fitCall [MapValue (Data_ t)]] /\
                  elems (bucket s1) = [] /\ params s1 = params s).
    { destruct (Base_Call _ _ _) as [[v | e] b]; injection H1 as <- <- <-;
        cbn [bucket params reslice0 elems];
        rewrite ?calls_fit_failed, ?calls_fit_done; auto. }
    destruct Hev as (Hev & Hempty1 & Hp1).
    destruct (IH s1 es s2 ev2 Hrest) as [Hc He]; [rewrite Hp1; exact HN | exact Hempty1 | exact H2 |].
    rewrite calls_app, Hev, Hc. split; [reflexivity | exact He].
Qed.

End WriteRuns.

(** * What each method leaves alone *)

Section Frames.
Context {RT : GoRuntime} {D : Data} {PY : PyState} {MP : Msgpack}.

Lemma loadMLParamsAndDataV1_keeps_bucket (s : State) r ps :
  bucket (snd (fst (loadMLParamsAndDataV1 s r ps))) = bucket s.
Proof.
  unfold loadMLParamsAndDataV1.
  destruct (binary_Read_uint32 r) as [[n | e] r2]; [| reflexivity].
  destruct (n =? 0); [reflexivity |].
  destruct (Read r2 (Z.to_nat n)) as [[buf [e |]] r3]; [reflexivity |].
  destruct (negb _); [reflexivity |].
  destruct (Decode buf) as [saved | e]; [| reflexivity].
  destruct (Base_Load (base s) r3 ps) as [[[e |] b] r4]; reflexivity.
Qed.

Lemma Load_keeps_bucket (s : State) r ps :
  bucket (snd (fst (Load s r ps))) = bucket s.
Proof.
  unfold Load.
  destruct (CheckTermination (base s)); [reflexivity |].
  destruct (binary_Read_uint8 r) as [[v | e] r1]; [| reflexivity].
  destruct (Byte.eqb v x01); [| reflexivity].
  apply loadMLParamsAndDataV1_keeps_bucket.
Qed.

(** X5. Of [Write], [Fit], [FitMap], [Predict], [Save] and [Load], only
    [Load] can change the configuration and only [Write] can change the
    bucket, whatever the delegate, the writer or the reader do. *)
Theorem params_and_bucket_frames (s : State) (q : Request) err s' :
  serve s q = (err, s') ->
  match q with
  | ReqLoad _ _ => bucket s' = bucket s
  | ReqWrite _ => params s' = params s
  | _ => params s' = params s /\ bucket s' = bucket s
  end.
Proof.
  destruct q as [t | bk | bk | dt | w ps | r ps]; cbn [serve].
  - destruct (Write s t) as [[e s1] ev] eqn:H. intros H'. injection H' as <- <-.
    exact (Write_keeps_params s t e s1 ev H).
  - unfold Fit, fit. destruct (Base_Call _ _ _) as [r b].
    intros H. injection H as <- <-. auto.
  - unfold FitMap. destruct (Base_Call _ _ _) as [r b].
    intros H. injection H as <- <-. auto.
  - unfold Predict. destruct (Base_Call _ _ _) as [r b].
    intros H. injection H as <- <-. auto.
  - unfold Save. destruct (CheckTermination (base s)).
    + intros H. injection H as <- <-. auto.
    + destruct (saveState s w) as [[e |] w1].
      * intros H. injection H as <- <-. auto.
      * destruct (Base_Save (base s) w1 ps) as [[e b] w2].
        intros H. injection H as <- <-. auto.
  - pose proof (Load_keeps_bucket s r ps) as Hb.
    destruct (Load s r ps) as [[e s1] r1]. intros H. injection H as <- <-.
    exact Hb.
Qed.

(** X6. [Load] keeps the buffered records, so they are trained under the
    loaded configuration: when a [Load] has succeeded and the loaded batch
    size is not above the number of buffered records plus one, the next
    [Write] on a live delegate hands all of them and the new record to
    [fit], however few the loaded batch size asks for. *)
Theorem Write_after_Load_flushes_old_bucket (s : State) r ps s1 r1 (t : Tuple) :
  Load s r ps = (None, s1, r1) ->
  CheckTermination (base s1) = None ->
  BatchSize (params s1) <= Z.of_nat (S (len (bucket s))) ->
  exists err s2 log,
    Write s1 t =
      (err, s2,
       Called "fit" [ArrayValue (elems (bucket s) ++ [MapValue (Data_ t)])] :: log) /\
    elems (bucket s2) = [].
Proof.
  intros HL Hlive Hge.
  pose proof (Load_keeps_bucket s r ps) as Hb. rewrite HL in Hb. cbn in Hb.
  rewrite <- Hb in Hge |- *.
  rewrite (Write_flush s1 t Hlive Hge), elems_append.
  destruct (Base_Call _ _ _) as [[v | e] b]; do 3 eexists; split; reflexivity.
Qed.

(** X7. The package-level [Fit] and [Predict] reach one state only.  When
    the name is unknown they return the registry's error, when it names a
    state of another type they return an error that quotes the name; in
    both cases nothing is called.  When it names a [State] they are its
    [FitMap] and [Predict], and afterwards that state has the bucket and
    the configuration it had.  Every other name is as it was. *)
Theorem named_calls_reach_one_state (reg : SharedStates) (name : string)
    (bk : list data_Map) (dt : data_Value) :
  let fitted := pymlstate_Fit reg name bk in
  let predicted := pymlstate_Predict reg name dt in
  (forall other, other <> name ->
     snd (fst fitted) other = reg other /\ snd (fst predicted) other = reg other) /\
  match reg name with
  | Err e =>
      fitted = (Err e, reg, []) /\ predicted = (Err e, reg, [])
  | Ok (OtherState _) =>
      fitted = (Err (notAState name), reg, []) /\
      predicted = (Err (notAState name), reg, [])
  | Ok (PyMLState s) =>
      (exists s', snd (fst fitted) name = Ok (PyMLState s') /\
                  (fst (fst fitted), s', snd fitted) = FitMap s bk /\
                  params s' = params s /\ bucket s' = bucket s) /\
      (exists s', snd (fst predicted) name = Ok (PyMLState s') /\
                  (fst (fst predicted), s', snd predicted) = Predict s dt /\
                  params s' = params s /\ bucket s' = bucket s)
  end.
Proof.
  cbv zeta. unfold pymlstate_Fit, pymlstate_Predict, lookupState. split.
  - intros other Hne.
    assert (Heq : String.eqb other name = false) by now apply String.eqb_neq.
    destruct (reg name) as [[s | k] | e]; cbn [fst snd]; auto.
    destruct (FitMap s bk) as [[r1 s1] ev1].
    destruct (Predict s dt) as [[r2 s2] ev2].
    cbn [fst snd]. unfold mutated. now rewrite Heq.
  - destruct (reg name) as [[s | k] | e]; auto.
    split.
    + unfold FitMap. destruct (Base_Call _ _ _) as [r b]. cbn [fst snd].
      eexists. unfold mutated. rewrite String.eqb_refl. auto.
    + unfold Predict. destruct (Base_Call _ _ _) as [r b]. cbn [fst snd].
      eexists. unfold mutated. rewrite String.eqb_refl. auto.
Qed.

End Frames.

(** * More of the persistence path *)

Lemma Writer_Write_honest (w : Writer) (p : list byte) n w' :
  Forall honest (wscript w) ->
  Writer_Write w p = (n, None, w') ->
  n = List.length p /\ written w' = written w ++ p /\ Forall honest (wscript w').
Proof.
  intros Hh. unfold Writer_Write.
  destruct (wscript w) as [|st rest] eqn:E.
  - intros H. injection H as <- <-. cbn. repeat split. constructor.
  - inversion Hh as [|? ? Hst Hrest]; subst.
    intros H. injection H as <- Hf <-. cbn [written wscript].
    destruct Hst as [Ha | Hw]; [| contradiction].
    rewrite Ha, firstn_all. auto.
Qed.

Lemma plain_without_bytes (r : Reader) : Forall plain r -> bytesOf r = [] -> r = [].
Proof.
  destruct r as [|c r]; [reflexivity |].
  intros H Hb. inversion H as [|? ? [Hne _] _]; subst.
  unfold bytesOf in Hb. cbn in Hb. apply app_eq_nil in Hb. tauto.
Qed.

Lemma readLoop_done (r : Reader) (got : list byte) : readLoop r 0 got = (got, None, r).
Proof. destruct r; reflexivity. Qed.

(** Reading [len(pre)] bytes across chunk boundaries: the loop of
    [io.ReadFull] collects [pre] from as many chunks as it takes and leaves
    the rest of the last one in place. *)
Lemma readLoop_delivers (r1 : Reader) :
  forall (r2 : Reader) (pre post got : list byte),
    Forall plain r1 ->
    bytesOf r1 = pre ++ post ->
    exists r1',
      readLoop (r1 ++ r2) (List.length pre) got = (got ++ pre, None, r1' ++ r2) /\
      Forall plain r1' /\ bytesOf r1' = post.
Proof.
  induction r1 as [|c r1 IH]; intros r2 pre post got Hplain Hbytes.
  - unfold bytesOf in Hbytes. cbn in Hbytes. symmetry in Hbytes.
    apply app_eq_nil in Hbytes. destruct Hbytes as [-> ->].
    exists []. cbn [List.length app]. rewrite readLoop_done, app_nil_r.
    repeat split. constructor.
  - inversion Hplain as [|? ? [Hne Hf] Hrest]; subst.
    destruct pre as [|p pre].
    { exists (c :: r1). cbn. rewrite app_nil_r. auto. }
    change (bytesOf (c :: r1)) with (data c ++ bytesOf r1) in Hbytes.
    change (readLoop ((c :: r1) ++ r2) (List.length (p :: pre)) got)
      with (if (List.length (data c) <=? List.length (p :: pre))%nat
            then match fault c with
                 | Some e => (got ++ data c, Some e, r1 ++ r2)
                 | None => readLoop (r1 ++ r2)
                             (List.length (p :: pre) - List.length (data c))
                             (got ++ data c)
                 end
            else (got ++ firstn (List.length (p :: pre)) (data c), None,
                  mkChunk (skipn (List.length (p :: pre)) (data c)) (fault c)
                    :: r1 ++ r2)).
    rewrite Hf.
    apply app_eq_app in Hbytes. destruct Hbytes as [l [[Hc Hpost] | [Hpre Hb]]].
    + destruct l as [|l0 l].
      * rewrite app_nil_r in Hc. rewrite Hc, Nat.leb_refl, Nat.sub_diag.
        exists r1. rewrite readLoop_done. subst post. auto.
      * rewrite Hc.
        destruct (Nat.leb_spec (List.length ((p :: pre) ++ l0 :: l))
                    (List.length (p :: pre))) as [H | H].
        { rewrite length_app in H. cbn in H. lia. }
        rewrite firstn_prefix, skipn_prefix.
        exists (mkChunk (l0 :: l) None :: r1). split; [reflexivity |]. split.
        -- constructor; [split; [discriminate | reflexivity] | assumption].
        -- subst post. reflexivity.
    + rewrite Hpre, length_app.
      destruct (Nat.leb_spec (List.length (data c))
                  (List.length (data c) + List.length l)) as [_ | H]; [| lia].
      replace (List.length (data c) + List.length l - List.length (data c))%nat
        with (List.length l) by lia.
      destruct (IH r2 l post (got ++ data c) Hrest Hb) as (r1' & HR & Hp & Hb').
      exists r1'. rewrite HR, <- app_assoc. auto.
Qed.

Lemma ReadFull_delivers (r1 r2 : Reader) (pre post : list byte) :
  Forall plain r1 ->
  bytesOf r1 = pre ++ post ->
  exists r1',
    ReadFull (r1 ++ r2) (List.length pre) = (pre, None, r1' ++ r2) /\
    Forall plain r1' /\ bytesOf r1' = post.
Proof.
  intros Hplain Hbytes.
  destruct (readLoop_delivers r1 r2 pre post [] Hplain Hbytes) as (r1' & HR & Hp & Hb).
  exists r1'. unfold ReadFull. rewrite HR. cbn [app].
  rewrite Nat.leb_refl. auto.
Qed.

(** One [Read] for [len(out)] bytes from a chunk that starts with [out]. *)
Lemma Read_chunk (out rest : list byte) (more : Reader) :
  out <> [] ->
  Read (mkChunk (out ++ rest) None :: more) (List.length out)
  = (out, None, bytesReader rest ++ more).
Proof.
  intros Hne. unfold Read. cbn [data fault].
  destruct rest as [|r0 rest].
  - rewrite app_nil_r, Nat.leb_refl. reflexivity.
  - destruct (Nat.leb_spec (List.length (out ++ r0 :: rest)) (List.length out)) as [H | H].
    + rewrite length_app in H. cbn in H. lia.
    + now rewrite firstn_prefix, skipn_prefix.
Qed.

Section PersistenceEdges.
Context {RT : GoRuntime} {D : Data} {PY : PyState} {MP : Msgpack}.

(** X8. On a writer that keeps the promise of [io.Writer] (a [Write] that
    takes less than it was given returns an error), [saveState] returns
    [nil] only after the configuration was encoded and exactly the version
    byte, the length prefix and the block were added to what the writer
    holds. *)
Theorem saveState_writes_the_header (s : State) (w w' : Writer) :
  Forall honest (wscript w) ->
  saveState s w = (None, w') ->
  exists out,
    Encode (params s) = Ok out /\
    written w' = written w ++ header out /\
    Forall honest (wscript w').
Proof.
  intros Hh. unfold saveState, binary_Write_uint32.
  destruct (Writer_Write w [pyMLStateFormatVersion]) as [[n1 [e |]] w1] eqn:H1;
    [discriminate |].
  destruct (Writer_Write_honest w _ n1 w1 Hh H1) as (_ & Hw1 & Hh1).
  destruct (Encode (params s)) as [out | e]; [| discriminate].
  destruct (Writer_Write w1 (PutUint32 _)) as [[n2 [e |]] w2] eqn:H2;
    [discriminate |].
  destruct (Writer_Write_honest w1 _ n2 w2 Hh1 H2) as (_ & Hw2 & Hh2).
  destruct (Writer_Write w2 out) as [[n3 [e |]] w3] eqn:H3; [discriminate |].
  destruct (Writer_Write_honest w2 _ n3 w3 Hh2 H3) as (_ & Hw3 & Hh3).
  destruct (n3 <? List.length out)%nat; [discriminate |].
  intros H. injection H as <-.
  exists out. split; [reflexivity |]. split; [| assumption].
  rewrite Hw3, Hw2, Hw1. unfold header. now rewrite <- !app_assoc.
Qed.

(** X9. A stream that announces a configuration block of length 0, which
    is what [saveState] writes for an empty encoding, is refused: on a live
    state [Load] reads the five bytes, returns the error about the size and
    gives the state back as it was. *)
Theorem Load_refuses_an_empty_block (s : State) ps (rest : list byte) :
  CheckTermination (base s) = None ->
  Load s (bytesReader (header [] ++ rest)) ps
  = (Some emptyParams, s, bytesReader rest).
Proof.
  intros Hlive. unfold Load, header. rewrite Hlive.
  cbn [app List.length]. rewrite binary_Read_uint8_bytes.
  change (Byte.eqb pyMLStateFormatVersion x01) with true. cbn iota.
  unfold loadMLParamsAndDataV1.
  change (uint32 (Z.of_nat 0)) with 0.
  rewrite app_nil_r.
  rewrite binary_Read_uint32_bytes by lia. reflexivity.
Qed.

(** X10. Every stream that ends inside the header or inside the
    configuration block is refused with the state unchanged.  For the
    first [k] bytes of a well-formed stream, [k] short of the end of the
    block, [Load] on a live state returns [io.EOF] when the stream ends
    before the length prefix or right after it, [io.ErrUnexpectedEOF] when
    it ends inside the length prefix, and the error about the read size
    when it ends inside the block. *)
Theorem Load_refuses_truncated_streams (s : State) ps (out : list byte) (k : nat) :
  CheckTermination (base s) = None ->
  Z.of_nat (List.length out) < 2 ^ 32 ->
  (k < 5 + List.length out)%nat ->
  Load s (bytesReader (firstn k (header out))) ps =
    (Some (if (k <=? 1)%nat then EOF
           else if (k <=? 4)%nat then ErrUnexpectedEOF
           else if (k =? 5)%nat then EOF
           else shortRead),
     s, []).
Proof.
  intros Hlive Hlen Hk.
  assert (Hsize : uint32 (Z.of_nat (List.length out)) = Z.of_nat (List.length out)).
  { unfold uint32. apply Z.mod_small. lia. }
  unfold Load. rewrite Hlive.
  destruct k as [|[|[|[|[|j]]]]];
    try (unfold header, PutUint32; cbn [firstn app]; reflexivity).
  (* the header is there, the block is cut after [j] bytes *)
  unfold header. rewrite Hsize.
  change (firstn (S (S (S (S (S j)))))
            (pyMLStateFormatVersion :: PutUint32 (Z.of_nat (List.length out)) ++ out))
    with (pyMLStateFormatVersion
            :: PutUint32 (Z.of_nat (List.length out)) ++ firstn j out).
  rewrite binary_Read_uint8_bytes.
  change (Byte.eqb pyMLStateFormatVersion x01) with true. cbn iota.
  unfold loadMLParamsAndDataV1.
  rewrite binary_Read_uint32_bytes by lia.
  destruct (Z.eqb_spec (Z.of_nat (List.length out)) 0) as [H0 | _]; [lia |].
  rewrite Nat2Z.id.
  assert (Hj : List.length (firstn j out) = j) by (rewrite length_firstn; lia).
  destruct j as [|j].
  - cbn [firstn bytesReader Read]. reflexivity.
  - destruct out as [|o out]; [cbn in Hk; lia |].
    cbn [firstn bytesReader Read data fault]. cbn [firstn] in Hj.
    rewrite Hj.
    destruct (Nat.leb_spec (S j) (List.length (o :: out))) as [_ | H];
      [| cbn in H, Hk; lia].
    rewrite ?Hj.
    destruct (Z.eqb_spec (Z.of_nat (S j)) (Z.of_nat (List.length (o :: out)))) as [H | _].
    + apply Nat2Z.inj in H. cbn in H, Hk. lia.
    + reflexivity.
Qed.

(** X11. The version byte and the length prefix may arrive in pieces: when
    the five bytes come in any number of non-empty reads and the next read
    brings the whole block, [Load] on a live state goes on to the delegate
    with the stream right after the block, and installs the decoded
    configuration when the delegate's load returns [nil]. *)
Theorem Load_reads_a_fragmented_header (s : State) ps (r1 more : Reader)
    (out rest : list byte) (saved : MLParams) :
  CheckTermination (base s) = None ->
  Forall plain r1 ->
  bytesOf r1 = x01 :: PutUint32 (Z.of_nat (List.length out)) ->
  out <> [] ->
  Z.of_nat (List.length out) < 2 ^ 32 ->
  Decode out = Ok saved ->
  Load s (r1 ++ mkChunk (out ++ rest) None :: more) ps =
    match Base_Load (base s) (bytesReader rest ++ more) ps with
    | (Some e, b, r) => (Some e, with_base s b, r)
    | (None, b, r) => (None, mkState b saved (bucket s), r)
    end.
Proof.
  intros Hlive Hplain Hbytes Hne Hlen Hdec.
  unfold Load, binary_Read_uint8. rewrite Hlive.
  destruct (ReadFull_delivers r1 (mkChunk (out ++ rest) None :: more)
              [x01] (PutUint32 (Z.of_nat (List.length out))) Hplain Hbytes)
    as (r1' & HR & Hplain' & Hbytes').
  change (List.length [x01]) with 1%nat in HR. rewrite HR.
  cbn [hd Byte.eqb]. cbn iota.
  unfold loadMLParamsAndDataV1, binary_Read_uint32.
  rewrite <- (app_nil_r (PutUint32 _)) in Hbytes'.
  destruct (ReadFull_delivers r1' (mkChunk (out ++ rest) None :: more)
              (PutUint32 (Z.of_nat (List.length out))) [] Hplain' Hbytes')
    as (r1'' & HR' & Hplain'' & Hbytes'').
  rewrite length_PutUint32 in HR'. rewrite HR'.
  rewrite (plain_without_bytes r1'' Hplain'' Hbytes''). cbn [app].
  rewrite Uint32_PutUint32 by lia.
  destruct (Z.eqb_spec (Z.of_nat (List.length out)) 0) as [H0 |].
  { destruct out; [congruence | cbn in H0; lia]. }
  rewrite Nat2Z.id, Read_chunk by assumption.
  rewrite Z.eqb_refl. cbn [negb]. rewrite Hdec.
  destruct (Base_Load (base s) (bytesReader rest ++ more) ps) as [[[e |] b] r];
    reflexivity.
Qed.

(** X12. The configuration block may not arrive in pieces: when the read
    for a block of [n] bytes brings fewer than [n] without an error, [Load]
    on a live state returns the error about the read size and gives the
    state back as it was, whatever the stream would have delivered next. *)
Theorem Load_fails_on_a_short_block_read (s : State) ps (r1 more : Reader)
    (part : list byte) (n : Z) :
  CheckTermination (base s) = None ->
  Forall plain r1 ->
  bytesOf r1 = x01 :: PutUint32 n ->
  0 < n < 2 ^ 32 ->
  Z.of_nat (List.length part) < n ->
  Load s (r1 ++ mkChunk part None :: more) ps = (Some shortRead, s, more).
Proof.
  intros Hlive Hplain Hbytes Hn Hshort.
  unfold Load, binary_Read_uint8. rewrite Hlive.
  destruct (ReadFull_delivers r1 (mkChunk part None :: more)
              [x01] (PutUint32 n) Hplain Hbytes)
    as (r1' & HR & Hplain' & Hbytes').
  change (List.length [x01]) with 1%nat in HR. rewrite HR.
  cbn [hd Byte.eqb]. cbn iota.
  unfold loadMLParamsAndDataV1, binary_Read_uint32.
  rewrite <- (app_nil_r (PutUint32 _)) in Hbytes'.
  destruct (ReadFull_delivers r1' (mkChunk part None :: more)
              (PutUint32 n) [] Hplain' Hbytes')
    as (r1'' & HR' & Hplain'' & Hbytes'').
  rewrite length_PutUint32 in HR'. rewrite HR'.
  rewrite (plain_without_bytes r1'' Hplain'' Hbytes''). cbn [app].
  rewrite Uint32_PutUint32 by lia.
  destruct (Z.eqb_spec n 0) as [H0 |]; [lia |].
  unfold Read. cbn [data fault].
  destruct (Nat.leb_spec (List.length part) (Z.to_nat n)) as [_ | H]; [| lia].
  destruct (Z.eqb_spec (Z.of_nat (List.length part)) n) as [H | _]; [lia |].
  reflexivity.
Qed.

End PersistenceEdges.

Section TerminatedGuard.
Context {RT : GoRuntime} {D : Data} {PY : PyState} {MP : Msgpack}.

(** X13. [Write], [Save] and [Load] look at [CheckTermination] before
    anything else: on a state whose delegate reports termination each
    returns that error, with the state, the log, the writer and the reader
    exactly as they were, whatever else the delegate would do. *)
Theorem terminated_state_is_not_touched (s : State) (e : error)
    (t : Tuple) (w : Writer) (r : Reader) ps :
  CheckTermination (base s) = Some e ->
  Write s t = (Some e, s, []) /\
  Save s w ps = (Some e, s, w) /\
  Load s r ps = (Some e, s, r).
Proof.
  intros H. unfold Write, Save, Load. rewrite H. auto.
Qed.

End TerminatedGuard.

(** ** The extras at work *)

Section MoreSampleRuns.
Import Sample.
#[local] Existing Instances sdata sruntime spystate smsgpack.

Lemma Write_fails_two_ways_sample :
  let s := fresh failing 1 in
  let e := ErrorString "fit raised" in
  let run := Write s (x 1) in
  (CheckTermination (base s) = Some e /\ snd (fst run) = s /\ snd run = []) \/
  (CheckTermination (base s) = None /\
   BatchSize (params s) <= Z.of_nat (S (len (bucket s))) /\
   let batch := elems (bucket s) ++ [MapValue (Data_ (x 1))] in
   fst (Base_Call (base s) "fit" [ArrayValue batch]) = Err e /\
   elems (bucket (snd (fst run))) = [] /\
   snd run = [Called "fit" [ArrayValue batch];
              ErrLogged e (List.length batch) trainingFailed]).
Proof.
  apply (Write_fails_two_ways (fresh failing 1) (x 1) (ErrorString "fit raised")).
  reflexivity.
Defined.

Lemma WriteAll_conserves_records_sample :
  let s := fresh failing 2 in
  let ts := [x 1; x 2; x 3] in
  let run := WriteAll s ts in
  exists batches : list (list data_Value),
    calls (snd run) = List.map fitCall batches /\
    List.concat batches ++ elems (bucket (snd (fst run)))
    = elems (bucket s) ++ records ts.
Proof.
  apply (WriteAll_conserves_records (fresh failing 2) [x 1; x 2; x 3]
           (fst (fst (WriteAll (fresh failing 2) [x 1; x 2; x 3])))).
  - repeat split.
  - reflexivity.
Defined.

Lemma WriteAll_fits_every_N_sample :
  let s := fresh good 2 in
  let ts := [x 1; x 2; x 3; x 4; x 5] in
  let run := WriteAll s ts in
  let N := BatchSize (params s) in
  let total := Z.of_nat (len (bucket s) + List.length ts) in
  exists batches : list (list data_Value),
    calls (snd run) = List.map fitCall batches /\
    Forall (fun b => Z.of_nat (List.length b) = N) batches /\
    Z.of_nat (List.length batches) = total / N /\
    Z.of_nat (len (bucket (snd (fst run)))) = total mod N.
Proof.
  apply (WriteAll_fits_every_N (fresh good 2) [x 1; x 2; x 3; x 4; x 5]
           (fst (fst (WriteAll (fresh good 2) [x 1; x 2; x 3; x 4; x 5])))).
  - repeat split.
  - cbn. lia.
  - reflexivity.
Defined.

Lemma WriteAll_unit_batches_sample :
  let run := WriteAll (fresh good 0) [x 1; x 2] in
  calls (snd run) = List.map (fun r => fitCall [r]) (records [x 1; x 2]) /\
  elems (bucket (snd (fst run))) = [].
Proof.
  apply (WriteAll_unit_batches [x 1; x 2] (fresh good 0)
           (fst (fst (WriteAll (fresh good 0) [x 1; x 2])))).
  - repeat split.
  - cbn. lia.
  - reflexivity.
  - reflexivity.
Defined.

Lemma params_and_bucket_frames_sample :
  let s := fresh good 2 in
  let q := ReqSave (D := sdata) (mkWriter [] []) [] in
  params (snd (serve s q)) = params s /\ bucket (snd (serve s q)) = bucket s.
Proof.
  apply (params_and_bucket_frames (fresh good 2)
           (ReqSave (D := sdata) (mkWriter [] []) [])
           (fst (serve (fresh good 2) (ReqSave (D := sdata) (mkWriter [] []) [])))).
  reflexivity.
Defined.

(** Two records wait in a bucket made for five when a batch size of 1 is
    loaded. *)
Lemma Write_after_Load_flushes_old_bucket_sample :
  let s := snd (fst (WriteAll (fresh good 5) [x 1; x 2])) in
  let stream := bytesReader (header ([x81; xb0] ++ list_byte_of_string fieldName ++ [x01])) in
  let s1 := snd (fst (Load s stream [])) in
  exists err s2 log,
    Write s1 (x 3) =
      (err, s2,
       Called "fit" [ArrayValue (elems (bucket s) ++ [MapValue (Data_ (x 3))])] :: log) /\
    elems (bucket s2) = [].
Proof.
  apply (Write_after_Load_flushes_old_bucket
           (snd (fst (WriteAll (fresh good 5) [x 1; x 2])))
           (bytesReader (header ([x81; xb0] ++ list_byte_of_string fieldName ++ [x01])))
           [] _ [] (x 3)).
  - reflexivity.
  - reflexivity.
  - vm_compute. discriminate.
Defined.

Lemma saveState_writes_the_header_sample :
  let w := mkWriter [x07] [mkWStep None None] in
  let w' := snd (saveState (fresh good 10) w) in
  exists out,
    Encode (params (fresh good 10)) = Ok out /\
    written w' = written w ++ header out /\
    Forall honest (wscript w').
Proof.
  apply (saveState_writes_the_header (fresh good 10)
           (mkWriter [x07] [mkWStep None None])).
  - repeat constructor.
  - reflexivity.
Defined.

Lemma Load_refuses_an_empty_block_sample :
  Load (fresh good 3) (bytesReader (header [] ++ [x09])) []
  = (Some emptyParams, fresh good 3, bytesReader [x09]).
Proof.
  apply (Load_refuses_an_empty_block (fresh good 3) [] [x09]).
  reflexivity.
Defined.

Lemma Load_refuses_truncated_streams_sample :
  Load (fresh good 3) (bytesReader (firstn 7 (header ten))) [] =
    (Some (if (7 <=? 1)%nat then EOF
           else if (7 <=? 4)%nat then ErrUnexpectedEOF
           else if (7 =? 5)%nat then EOF
           else shortRead),
     fresh good 3, []).
Proof.
  apply (Load_refuses_truncated_streams (fresh good 3) [] ten 7).
  - reflexivity.
  - cbn. lia.
  - cbn. lia.
Defined.

Lemma Load_reads_a_fragmented_header_sample :
  let r1 := [mkChunk [x01; x01] None; mkChunk [x00; x00; x00] None] in
  Load (fresh good 3) (r1 ++ mkChunk ([x80] ++ [x09]) None :: []) [] =
    match Base_Load (base (fresh good 3)) (bytesReader [x09] ++ []) [] with
    | (Some e, b, r) => (Some e, with_base (fresh good 3) b, r)
    | (None, b, r) => (None, mkState b (mkMLParams 0) (bucket (fresh good 3)), r)
    end.
Proof.
  apply (Load_reads_a_fragmented_header (fresh good 3) []
           [mkChunk [x01; x01] None; mkChunk [x00; x00; x00] None] []
           [x80] [x09] (mkMLParams 0)).
  - reflexivity.
  - repeat constructor; discriminate.
  - reflexivity.
  - discriminate.
  - cbn. lia.
  - reflexivity.
Defined.

Lemma Load_fails_on_a_short_block_read_sample :
  let r1 := [mkChunk [x01; x02] None; mkChunk [x00; x00; x00] None] in
  Load (fresh good 3) (r1 ++ mkChunk [x81] None :: [mkChunk [x80] None]) []
  = (Some shortRead, fresh good 3, [mkChunk [x80] None]).
Proof.
  apply (Load_fails_on_a_short_block_read (fresh good 3) []
           [mkChunk [x01; x02] None; mkChunk [x00; x00; x00] None]
           [mkChunk [x80] None] [x81] 2).
  - reflexivity.
  - repeat constructor; discriminate.
  - reflexivity.
  - lia.
  - cbn. lia.
Defined.

Lemma terminated_state_is_not_touched_sample :
  let s := snd (Terminate (fresh good 2)) in
  let e := ErrAlreadyTerminated in
  Write s (x 1) = (Some e, s, []) /\
  Save s (mkWriter [x07] []) [] = (Some e, s, mkWriter [x07] []) /\
  Load s (bytesReader [x01]) [] = (Some e, s, bytesReader [x01]).
Proof.
  apply (terminated_state_is_not_touched (snd (Terminate (fresh good 2)))
           ErrAlreadyTerminated).
  reflexivity.
Defined.

End MoreSampleRuns.
